(** * The OAuth callback of the trial-key bot ([oauth_server.py])

    A shallow embedding of the callback handler and of its in-memory rate
    limiter, and the properties of the handler's design that they satisfy.

    - the Replit key-value store [db] is a finite map from strings to
      Python dicts, themselves finite maps from field names to values;
    - the rate limiter's [ip_requests] is a finite map from client
      addresses to lists of timestamps;
    - the handler runs in a small state-and-exception monad that threads
      the two stores and a log of every store access, outbound HTTP call
      and staff notification, in program order. *)

From Stdlib Require Import ZArith Lia.
From stdpp Require Import gmap strings list fin_maps sorting.

Local Open Scope string_scope.
Local Open Scope list_scope.
Local Open Scope Z_scope.

(** ** The IP rate limiter *)

Module RateLimit.

(** [RATE_LIMIT = 5] calls per [RATE_PERIOD = 60] seconds. *)
Definition RATE_LIMIT : nat := 5.
Definition RATE_PERIOD : Z := 60.

(** A [datetime] is its number of microseconds since the epoch, so that the
    difference of two of them is a [timedelta] in microseconds.
    [delta.total_seconds()] is the float nearest to that number divided by
    [10**6]; rounding is monotone and keeps an integer number of seconds
    exact, so [delta.total_seconds() < secs] holds exactly when the number of
    microseconds is below [secs] million. *)
Definition total_seconds_lt (delta : Z) (secs : Z) : bool :=
  delta <? secs * 1000000.

(** The filter of the list comprehension:
    [(now - t).total_seconds() < RATE_PERIOD]. *)
Definition recent (now t : Z) : bool :=
  total_seconds_lt (now - t) RATE_PERIOD.

(** [record_ip]: returns [true] when the rate limit is exceeded, together
    with the new contents of [ip_requests]. The clock reading [now] is the
    value [datetime.now(timezone.utc)] returned in this call. *)
Definition record_ip (now : Z) (ip : string) (ip_requests : gmap string (list Z))
  : bool * gmap string (list Z) :=
  let lst := default [] (ip_requests !! ip) in
  let lst := List.filter (recent now) lst in
  let lst := lst ++ [now] in
  (bool_decide (RATE_LIMIT < length lst)%nat, <[ip := lst]> ip_requests).

(** The timestamps stored for an address ([ip_requests.get(ip, [])]). *)
Definition window (ip : string) (ip_requests : gmap string (list Z)) : list Z :=
  default [] (ip_requests !! ip).

(** A check is allowed when [record_ip] returns [False]. *)
Definition allowed (now : Z) (ip : string) (m : gmap string (list Z)) : bool :=
  negb (record_ip now ip m).1.

(** Successive admission checks from one address, at the given clock
    readings: the flags [record_ip] returned, and the final store. *)
Fixpoint checks (ip : string) (times : list Z) (m : gmap string (list Z))
  : list bool * gmap string (list Z) :=
  match times with
  | [] => ([], m)
  | now :: rest =>
      let r := record_ip now ip m in
      let rs := checks ip rest r.2 in
      (r.1 :: rs.1, rs.2)
  end.

(** The window that each of the successive checks compares with the limit:
    the list after pruning and appending. *)
Fixpoint windows_seen (ip : string) (times : list Z) (m : gmap string (list Z))
  : list (list Z) :=
  match times with
  | [] => []
  | now :: rest =>
      let r := record_ip now ip m in
      window ip r.2 :: windows_seen ip rest r.2
  end.

(** Every reading of the list is still recent at each later reading of it:
    the calls come in a burst that fits in one period. *)
Fixpoint within_period (times : list Z) : bool :=
  match times with
  | [] => true
  | t :: rest => forallb (λ t', recent t' t) rest && within_period rest
  end.

(** Seven calls from one address, nine seconds apart. *)
Definition burst7 : list Z :=
  [0; 9000000; 18000000; 27000000; 36000000; 45000000; 54000000].

End RateLimit.

(** ** Python values and strings *)

Module Py.

(** The values held in the fields of the stored records and in the query
    parameters: [None] or a [str] (identifiers are kept as their text). *)
Inductive value : Type :=
| None_
| Str (s : string).

(** [bool(v)], as tested by [not v]. *)
Definition truthy (v : value) : bool :=
  match v with
  | None_ => false
  | Str s => negb (String.eqb s "")
  end.

(** [f"{v}"]. *)
Definition format (v : value) : string :=
  match v with
  | None_ => "None"
  | Str s => s
  end.

(** [s.startswith(p)]. *)
Definition startswith (s p : string) : bool := String.prefix p s.

(** [strip_prefix p s] is [Some r] when [s = p + r]. *)
Fixpoint strip_prefix (p s : string) : option string :=
  match p, s with
  | EmptyString, _ => Some s
  | String a p', String b s' => if Ascii.eqb a b then strip_prefix p' s' else None
  | String _ _, EmptyString => None
  end.

(** [partition sep s] cuts [s] at the leftmost occurrence of [sep]: the text
    before it and the text after it, as [s.partition(sep)] does when it finds
    one. *)
Fixpoint partition (sep s : string) : option (string * string) :=
  match strip_prefix sep s with
  | Some rest => Some (EmptyString, rest)
  | None =>
      match s with
      | EmptyString => None
      | String c s' =>
          match partition sep s' with
          | Some (before, after) => Some (String c before, after)
          | None => None
          end
      end
  end.

(** [s.split(sep)] for a non-empty [sep]: cut at the leftmost occurrence,
    then go on in the text after it. Each cut removes at least one character,
    so [length s] rounds are enough. *)
Fixpoint split_fuel (fuel : nat) (sep s : string) : list string :=
  match fuel with
  | O => [s]
  | S fuel =>
      match partition sep s with
      | None => [s]
      | Some (before, after) => before :: split_fuel fuel sep after
      end
  end.

Definition split (sep s : string) : list string :=
  split_fuel (String.length s) sep s.

(** The text of [s] up to its leftmost [sep], all of [s] when it has none. *)
Definition second_part (sep s : string) : string :=
  match partition sep s with
  | None => s
  | Some (before, _) => before
  end.

(** [sep] occurs in [s]. *)
Definition occurs (sep s : string) : Prop :=
  ∃ before after, s = before +:+ sep +:+ after.

End Py.

(** ** The callback handler *)

Module Handler.
Import Py.

(** A stored record is a Python dict; the store maps strings to records. *)
Abbreviation Rec := (gmap string value).
Abbreviation Db := (gmap string Rec).

(** The staff notifications, by the call site that sends them. *)
Inductive Notice : Type :=
| RateLimitExceeded (ip : string)
| MissingCodeOrState (ip : string)
| StateNotFound (state : value) (ip : string)
| DuplicateAttempt (discord_id : value)
| DiscordLinked (discord_id : value) (email : value)
| BotError (discord_id : value)
| DmDeliveryFailed (discord_id : value) (key_str : string)
| KeyDispensed (discord_id : value) (key_str : string).

(** What the handler does to the outside, in program order. *)
Inductive Event : Type :=
| DbContains (k : string)
| DbGet (k : string)
| DbSet (k : string) (v : Rec)
| DbDel (k : string)
| DbItems
| TokenExchange (code : value)
| ProfileFetch (access_token : string)
| DmOpen (recipient_id : value)
| DmSend (cid : value) (key_str : string)
| Notify (n : Notice).

(** The process state: the store, the rate limiter's dict and the log. *)
Record Mem : Type := mkMem {
  db : Db;
  ip_requests : gmap string (list Z);
  log : list Event
}.

Inductive Exn : Type :=
| HTTPException (status_code : Z) (detail : string)
| KeyError (k : string)
| IndexError
| HTTPError (status_code : Z)
| ConnectionError
| JSONError
| Exception (msg : string).

Inductive Result (A : Type) : Type :=
| Return (a : A)
| Raise (e : Exn).
Arguments Return {A} a.
Arguments Raise {A} e.

(** Computations that read and write the process state and may raise. *)
Definition M (A : Type) : Type := Mem → Result A * Mem.

Definition ret {A} (a : A) : M A := λ m, (Return a, m).
Definition raise {A} (e : Exn) : M A := λ m, (Raise e, m).
Definition bind {A B} (c : M A) (k : A → M B) : M B :=
  λ m, match c m with
       | (Return a, m') => k a m'
       | (Raise e, m') => (Raise e, m')
       end.

(** [try: body except Exception as e: handler e]. *)
Definition try_except {A} (body : M A) (handler : Exn → M A) : M A :=
  λ m, match body m with
       | (Return a, m') => (Return a, m')
       | (Raise e, m') => handler e m'
       end.

Declare Scope py_scope.
Delimit Scope py_scope with py.
Bind Scope py_scope with M.
Notation "x <- c ;; k" := (bind c (λ x, k))
  (at level 100, c at next level, right associativity) : py_scope.
Notation "c ;; k" := (bind c (λ _, k))
  (at level 100, right associativity) : py_scope.
Local Open Scope py_scope.

Definition emit (e : Event) : M unit :=
  λ m, (Return tt, mkMem (db m) (ip_requests m) (log m ++ [e])).

(** Modelled from the spec: [notify_staff_sync] of the module [log], which is
    not part of the sources; a fire-and-forget sink that does not raise. *)
Definition notify_staff_sync (n : Notice) : M unit := emit (Notify n).

(** The store: [k in db], [db[k]], [db[k] = v], [del db[k]]. *)
Definition db_contains (k : string) : M bool :=
  emit (DbContains k) ;;
  λ m, (Return (bool_decide (is_Some (db m !! k))), m).

Definition db_getitem (k : string) : M Rec :=
  emit (DbGet k) ;;
  λ m, match db m !! k with
       | Some v => (Return v, m)
       | None => (Raise (KeyError k), m)
       end.

Definition db_setitem (k : string) (v : Rec) : M unit :=
  emit (DbSet k v) ;;
  λ m, (Return tt, mkMem (<[k := v]> (db m)) (ip_requests m) (log m)).

Definition db_delitem (k : string) : M unit :=
  emit (DbDel k) ;;
  λ m, match db m !! k with
       | Some _ => (Return tt, mkMem (delete k (db m)) (ip_requests m) (log m))
       | None => (Raise (KeyError k), m)
       end.

(** [d[field]] on a dict. *)
Definition getitem (d : Rec) (field : string) : M value :=
  match d !! field with
  | Some v => ret v
  | None => raise (KeyError field)
  end.

(** [l[i]] on a list. *)
Definition index (l : list string) (i : nat) : M string :=
  match l !! i with
  | Some x => ret x
  | None => raise IndexError
  end.

(** [record_ip] on the process state. *)
Definition record_ip (now : Z) (ip : string) : M bool :=
  λ m, let r := RateLimit.record_ip now ip (ip_requests m) in
       (Return r.1, mkMem (db m) r.2 (log m)).

(** What an outbound [requests] call meets: no response at all, or a
    response with a status code and a body. [json] is the value that the
    handler reads in the body, [None] when reading it raises (the body is not
    JSON, or it lacks the field). *)
Inductive Response (A : Type) : Type :=
| NoResponse
| Reply (status_code : Z) (json : option A).
Arguments NoResponse {A}.
Arguments Reply {A} status_code json.

(** [requests.post] and [requests.get] raise when no response comes, and
    return the response otherwise, whatever its status. *)
Definition requests {A} (call : Event) (r : Response A) : M (Z * option A) :=
  emit call ;;
  match r with
  | NoResponse => raise ConnectionError
  | Reply status_code json => ret (status_code, json)
  end.

(** [resp.raise_for_status()] raises on the 4xx and 5xx codes. *)
Definition raise_for_status {A} (resp : Z * option A) : M unit :=
  if bool_decide (400 ≤ resp.1 < 600) then raise (HTTPError resp.1) else ret tt.

Definition json {A} (resp : Z * option A) : M A :=
  match resp.2 with
  | Some v => ret v
  | None => raise JSONError
  end.

(** The request: the client address and the two query parameters, each
    [None] when absent. *)
Record Request : Type := mkRequest {
  client_host : string;
  query_code : value;
  query_state : value
}.

(** What the outside answers during one request: the clock read by
    [record_ip], the ISO text of the clock read by the handler, and the
    responses of the four outbound calls. *)
Record World : Type := mkWorld {
  clock : Z;
  now_isoformat : string;
  token_resp : Response string;
  user_resp : Response value;
  dm_resp : Response value;
  message_resp : Response unit
}.

(** What the handler returns. *)
Inductive Redirect : Type := RedirectResponse (url : string).

Section Callback.

(** The order in which [db.items()] lists the entries of the store. *)
Variable items_order : Db → list (string * Rec).

Definition db_items : M (list (string * Rec)) :=
  emit DbItems ;;
  λ m, (Return (items_order (db m)), m).

(** The body of the dispensing loop for a pool entry [k] (the loop leaves
    after it). *)
Definition dispense (w : World) (discord_id : value) (user_db_key : string)
    (k : string) : M unit :=
  key_str <- index (split "key:" k) 1 ;;
  db_delitem k ;;
  rec <- db_getitem user_db_key ;;
  let rec := <["dispensed_key" := Str key_str]> rec in
  let rec := <["last_dispensed_at" := Str (now_isoformat w)]> rec in
  db_setitem user_db_key rec ;;
  try_except
    (dm <- requests (DmOpen discord_id) (dm_resp w) ;;
     raise_for_status dm ;;
     cid <- json dm ;;
     requests (DmSend cid key_str) (message_resp w) ;;
     ret tt)
    (λ e, notify_staff_sync (DmDeliveryFailed discord_id key_str)) ;;
  notify_staff_sync (KeyDispensed discord_id key_str).

(** [for k, v in list(db.items()): if k.startswith("key:"): ...; break]. *)
Fixpoint dispense_first (w : World) (discord_id : value) (user_db_key : string)
    (items : list (string * Rec)) : M unit :=
  match items with
  | [] => ret tt
  | (k, v) :: rest =>
      if startswith k "key:" then dispense w discord_id user_db_key k
      else dispense_first w discord_id user_db_key rest
  end.

(** The exchange of the code for a token and of the token for the email,
    and the update of the user record: the body of the first [try]. *)
Definition exchange (w : World) (code discord_id : value) (user_db_key : string)
  : M unit :=
  token_resp <- requests (TokenExchange code) (token_resp w) ;;
  raise_for_status token_resp ;;
  access_token <- json token_resp ;;
  user_resp <- requests (ProfileFetch access_token) (user_resp w) ;;
  raise_for_status user_resp ;;
  email <- json user_resp ;;
  (if negb (truthy email) then raise (Exception "Email scope missing") else ret tt) ;;
  rec <- db_getitem user_db_key ;;
  let rec := <["email" := email]> rec in
  db_setitem user_db_key rec ;;
  notify_staff_sync (DiscordLinked discord_id email).

(** [oauth_callback]. *)
Definition oauth_callback (w : World) (request : Request) : M Redirect :=
  let ip := client_host request in
  exceeded <- record_ip (clock w) ip ;;
  if exceeded then
    notify_staff_sync (RateLimitExceeded ip) ;;
    raise (HTTPException 429 "Too many requests")
  else
  let code := query_code request in
  let state := query_state request in
  if negb (truthy code) || negb (truthy state) then
    notify_staff_sync (MissingCodeOrState ip) ;;
    raise (HTTPException 400 "Missing code or state")
  else
  let state_key := "state:" +:+ format state in
  known <- db_contains state_key ;;
  if negb known then
    notify_staff_sync (StateNotFound state ip) ;;
    raise (HTTPException 400 "Invalid state")
  else
  rec <- db_getitem state_key ;;
  discord_id <- getitem rec "user_id" ;;
  let user_db_key := "user:" +:+ format discord_id in
  linked <- db_contains user_db_key ;;
  (if linked then notify_staff_sync (DuplicateAttempt discord_id)
   else db_setitem user_db_key
          (<["first_linked_at" := Str (now_isoformat w)]>
             (<["email" := None_]> {["discord_id" := discord_id]}))) ;;
  db_delitem state_key ;;
  try_except
    (exchange w code discord_id user_db_key)
    (λ e, notify_staff_sync (BotError discord_id) ;;
          raise (HTTPException 500 "OAuth failure")) ;;
  items <- db_items ;;
  dispense_first w discord_id user_db_key items ;;
  ret (RedirectResponse "https://skyspoofer.com").

(** The status code of the HTTP response that the framework sends: that of
    the redirect, that of the [HTTPException], and 500 for any other
    exception that leaves the handler. *)
Definition status_of (r : Result Redirect) : Z :=
  match r with
  | Return (RedirectResponse _) => 307
  | Raise (HTTPException status_code _) => status_code
  | Raise _ => 500
  end.

(** Requests served one after the other. *)
Fixpoint serve (reqs : list (World * Request)) (m : Mem) : list (Result Redirect) * Mem :=
  match reqs with
  | [] => ([], m)
  | (w, request) :: rest =>
      let r := oauth_callback w request m in
      let rs := serve rest r.2 in
      (r.1 :: rs.1, rs.2)
  end.

End Callback.

(** The keys that the handler builds. *)
Definition state_key (request : Request) : string :=
  "state:" +:+ format (query_state request).
Definition user_key (discord_id : value) : string :=
  "user:" +:+ format discord_id.

(** The record that the handler stores at a first link. *)
Definition new_account (discord_id : value) (now : string) : Rec :=
  <["first_linked_at" := Str now]>
    (<["email" := None_]> {["discord_id" := discord_id]}).

(** The store after the account resolution: the record is created when the
    identity has none. *)
Definition resolve (d : Db) (discord_id : value) (now : string) : Db :=
  match d !! user_key discord_id with
  | Some _ => d
  | None => <[user_key discord_id := new_account discord_id now]> d
  end.

(** What the account resolution does besides looking the record up. *)
Definition resolution (d : Db) (discord_id : value) (now : string) : Event :=
  match d !! user_key discord_id with
  | Some _ => Notify (DuplicateAttempt discord_id)
  | None => DbSet (user_key discord_id) (new_account discord_id now)
  end.

(** The account record after the resolution. *)
Definition account (d : Db) (discord_id : value) (now : string) : Rec :=
  default (new_account discord_id now) (d !! user_key discord_id).

(** The events of a run up to the consumption of the state. *)
Definition prelude (request : Request) (d : Db) (discord_id : value) (now : string)
  : list Event :=
  [DbContains (state_key request); DbGet (state_key request);
   DbContains (user_key discord_id); resolution d discord_id now;
   DbDel (state_key request)].

(** The store after a successful exchange: the state is consumed and the
    account has its email. *)
Definition linked_db (request : Request) (d : Db) (discord_id : value) (now : string)
    (email : value) : Db :=
  <[user_key discord_id := <["email" := email]> (account d discord_id now)]>
    (delete (state_key request) (resolve d discord_id now)).

(** The record with the dispensed key and its time. *)
Definition annotate (rec : Rec) (key_str now : string) : Rec :=
  <["last_dispensed_at" := Str now]> (<["dispensed_key" := Str key_str]> rec).

(** The first pool entry of a listing of the store. *)
Definition first_pool_key (items : list (string * Rec)) : option string :=
  fst <$> List.find (λ kv, startswith kv.1 "key:") items.

(** A status on which [raise_for_status] raises. *)
Definition error_status (status_code : Z) : Prop := 400 ≤ status_code < 600.

(** The events of the delivery of a key: the calls made, and the notice of
    the [except] branch when one of them raised. *)
Definition delivery (w : World) (discord_id : value) (key_str : string) : list Event :=
  DmOpen discord_id ::
  match dm_resp w with
  | NoResponse => [Notify (DmDeliveryFailed discord_id key_str)]
  | Reply status_code body =>
      if bool_decide (error_status status_code)
      then [Notify (DmDeliveryFailed discord_id key_str)]
      else match body with
           | None => [Notify (DmDeliveryFailed discord_id key_str)]
           | Some cid =>
               DmSend cid key_str ::
               match message_resp w with
               | NoResponse => [Notify (DmDeliveryFailed discord_id key_str)]
               | Reply _ _ => []
               end
           end
  end.

(** The identity exchange fails: no response, an error status or an
    unreadable body from the token or the profile request, or a profile
    whose email is missing or empty. *)
Inductive ExchangeFails (w : World) : Prop :=
| token_no_response :
    token_resp w = NoResponse → ExchangeFails w
| token_error_status status_code body :
    token_resp w = Reply status_code body → error_status status_code → ExchangeFails w
| token_unreadable status_code :
    token_resp w = Reply status_code None → ExchangeFails w
| profile_no_response :
    user_resp w = NoResponse → ExchangeFails w
| profile_error_status status_code body :
    user_resp w = Reply status_code body → error_status status_code → ExchangeFails w
| profile_unreadable status_code :
    user_resp w = Reply status_code None → ExchangeFails w
| profile_without_email status_code email :
    user_resp w = Reply status_code (Some email) → truthy email = false → ExchangeFails w.

(** The identity exchange succeeds with [email]. *)
Definition ExchangeSucceeds (w : World) (email : value) : Prop :=
  ∃ status_code access_token status_code',
    token_resp w = Reply status_code (Some access_token) ∧ ¬ error_status status_code ∧
    user_resp w = Reply status_code' (Some email) ∧ ¬ error_status status_code' ∧
    truthy email = true.

(** The outbound calls of the identity exchange. *)
Definition exchange_calls (w : World) (code : value) : list Event :=
  TokenExchange code ::
  match token_resp w with
  | Reply status_code (Some access_token) =>
      if bool_decide (error_status status_code) then [] else [ProfileFetch access_token]
  | _ => []
  end.

(** The request passes the rate limiter. *)
Definition allowed (w : World) (request : Request) (m : Mem) : bool :=
  RateLimit.allowed (clock w) (client_host request) (ip_requests m).

(** The request carries a code and a state. *)
Definition complete (request : Request) : bool :=
  truthy (query_code request) && truthy (query_state request).

(** The events of one run, from the state before it to the state after. *)
Definition emitted (m m' : Mem) : list Event := drop (length (log m)) (log m').

(** The pool: the entries of the store whose key starts with ["key:"]. *)
Definition pool (d : Db) : Db := filter (λ kv, startswith kv.1 "key:" = true) d.

(** The field of a stored record, [None] when the record or the field is
    absent. *)
Definition field (d : Db) (k f : string) : option value :=
  d !! k ≫= (λ rec, rec !! f).

(** The three writes that the handler makes to a record after its creation:
    none, the email of the exchange, and the email followed by the
    annotation of a dispensed key. *)
Inductive record_step (rec : Rec) : Rec → Prop :=
| step_kept : record_step rec rec
| step_email email : record_step rec (<["email" := email]> rec)
| step_dispensed email key_str now :
    record_step rec (annotate (<["email" := email]> rec) key_str now).

(** The notices of an exchange error, and of a failed delivery. *)
Definition is_bot_error (e : Event) : bool :=
  match e with
  | Notify (BotError _) => true
  | _ => false
  end.

Definition is_delivery_failure (e : Event) : bool :=
  match e with
  | Notify (DmDeliveryFailed _ _) => true
  | _ => false
  end.

(** The event reads or writes the entry [k] of the store. *)
Definition touches (k : string) (e : Event) : bool :=
  match e with
  | DbContains k' | DbGet k' | DbSet k' _ | DbDel k' => bool_decide (k' = k)
  | _ => false
  end.

(** The event is part of a dispense: the removal of a pool entry, a call of
    the delivery, or one of the two notices about the key. *)
Definition is_dispense (e : Event) : bool :=
  match e with
  | DbDel k => startswith k "key:"
  | DmOpen _ | DmSend _ _ => true
  | Notify (KeyDispensed _ _) | Notify (DmDeliveryFailed _ _) => true
  | _ => false
  end.

End Handler.

(** ** Sample requests *)

Module Examples.
Import Py Handler.

Definition address : string := "203.0.113.7".

(** Every outbound call succeeds. *)
Definition world_ok : World :=
  mkWorld 0 "2025-01-01T00:00:00+00:00"
    (Reply 200 (Some "tok")) (Reply 200 (Some (Str "a@b.c")))
    (Reply 200 (Some (Str "777"))) (Reply 200 (Some tt)).

(** The profile comes without an email. *)
Definition world_no_email : World :=
  mkWorld 0 "2025-01-01T00:00:00+00:00"
    (Reply 200 (Some "tok")) (Reply 200 (Some None_))
    (Reply 200 (Some (Str "777"))) (Reply 200 (Some tt)).

(** The delivery channel opens, and the message is refused with a 403. *)
Definition world_message_refused : World :=
  mkWorld 0 "2025-01-01T00:00:00+00:00"
    (Reply 200 (Some "tok")) (Reply 200 (Some (Str "a@b.c")))
    (Reply 200 (Some (Str "777"))) (Reply 403 (Some tt)).

(** The delivery channel does not open. *)
Definition world_channel_refused : World :=
  mkWorld 0 "2025-01-01T00:00:00+00:00"
    (Reply 200 (Some "tok")) (Reply 200 (Some (Str "a@b.c")))
    (Reply 403 None) (Reply 200 (Some tt)).

(** Two pending states of the identity 42, and two keys in the pool. *)
Definition store2 : Db :=
  <["state:s1" := {["user_id" := Str "42"]}]>
    (<["state:s2" := {["user_id" := Str "42"]}]>
       (<["key:AAA" := ∅]> (<["key:BBB" := ∅]> ∅))).

(** One pending state, no key. *)
Definition store_dry : Db := {["state:s1" := {["user_id" := Str "42"]}]}.

Definition mem2 : Mem := mkMem store2 ∅ [].
Definition mem_dry : Mem := mkMem store_dry ∅ [].
Definition mem_empty : Mem := mkMem ∅ ∅ [].

Definition request1 : Request := mkRequest address (Str "c1") (Str "s1").
Definition request2 : Request := mkRequest address (Str "c2") (Str "s2").
Definition request_unknown : Request := mkRequest address (Str "c") (Str "nope").

Definition state1 : Rec := {["user_id" := Str "42"]}.

(** A later request, at a later time. *)
Definition world_later : World :=
  mkWorld 1000000 "2025-01-01T00:00:01+00:00"
    (Reply 200 (Some "tok")) (Reply 200 (Some (Str "a@b.c")))
    (Reply 200 (Some (Str "777"))) (Reply 200 (Some tt)).

(** The account of the identity 42 after its first link from [mem2]. *)
Definition account1 : Rec :=
  annotate (<["email" := Str "a@b.c"]> (new_account (Str "42") (now_isoformat world_ok)))
    "AAA" (now_isoformat world_ok).

End Examples.

(** ** More outcomes and samples *)

Module Outcomes.
Import Py Handler.

(** A call in the delivery [try] raises: the channel request gets no
    response, an error status or a body without an [id], or the message
    request gets no response. *)
Inductive DeliveryRaises (w : World) : Prop :=
| channel_no_response :
    dm_resp w = NoResponse → DeliveryRaises w
| channel_error_status status_code body :
    dm_resp w = Reply status_code body → error_status status_code → DeliveryRaises w
| channel_unreadable status_code :
    dm_resp w = Reply status_code None → DeliveryRaises w
| message_no_response :
    message_resp w = NoResponse → DeliveryRaises w.

(** [sep.join(parts)]. *)
Fixpoint join (sep : string) (parts : list string) : string :=
  match parts with
  | [] => ""
  | [part] => part
  | part :: rest => part +:+ sep +:+ join sep rest
  end.

(** Clock readings at a fixed pace: the reading number [k] from [start],
    with [gap] between two readings, and the first [n] of them. *)
Definition pace (start gap : Z) (k : nat) : Z := start + Z.of_nat k * gap.

Definition steady (start gap : Z) (n : nat) : list Z :=
  pace start gap <$> seq 0 n.

(** The requests all come from the address [ip]. *)
Definition from_address (ip : string) (reqs : list (World * Request)) : bool :=
  forallb (λ wr, String.eqb (client_host wr.2) ip) reqs.

(** The clock readings of the rate limiter along a list of requests. *)
Definition clocks (reqs : list (World * Request)) : list Z :=
  (λ wr, clock wr.1) <$> reqs.

(** A parameter that [not] rejects: absent or empty. *)
Definition missing (v : value) : Prop := v = None_ ∨ v = Str "".

(** The event is a staff notification. *)
Definition is_notify (e : Event) : bool :=
  match e with
  | Notify _ => true
  | _ => false
  end.

(** The event is an outbound HTTP call. *)
Definition is_call (e : Event) : bool :=
  match e with
  | TokenExchange _ | ProfileFetch _ | DmOpen _ | DmSend _ _ => true
  | _ => false
  end.

(** A pending state stored without its [user_id]. *)
Definition store_malformed : Db := {["state:s1" := ∅]}.
Definition mem_malformed : Mem := mkMem store_malformed ∅ [].

(** A request with an empty code. *)
Definition request_no_code : Request :=
  mkRequest Examples.address (Str "") (Str "s1").

(** Five calls already recorded for the sample address, at the clock of
    the sample worlds. *)
Definition mem_busy : Mem :=
  mkMem Examples.store2 {[Examples.address := [0; 0; 0; 0; 0]]} [].

(** A store with an entry of another component. *)
Definition store_mixed : Db := <["config" := {["mode" := Str "live"]}]> Examples.store2.
Definition mem_mixed : Mem := mkMem store_mixed ∅ [].

End Outcomes.

(** ** Properties of the rate limiter *)

Module RateLimitFacts.
Import RateLimit.

#[local] Arguments record_ip : simpl never.
#[local] Arguments window : simpl never.

Lemma recent_refl now : recent now now = true.
Proof.
  unfold recent, total_seconds_lt, RATE_PERIOD.
  apply Z.ltb_lt. lia.
Qed.

Lemma record_ip_window now ip m :
  window ip (record_ip now ip m).2 = List.filter (recent now) (window ip m) ++ [now].
Proof. unfold window, record_ip. cbn [snd]. by rewrite lookup_insert_eq. Qed.

Lemma record_ip_flag now ip m :
  (record_ip now ip m).1
  = bool_decide (RATE_LIMIT < length (List.filter (recent now) (window ip m) ++ [now]))%nat.
Proof. reflexivity. Qed.

(** The windows of the other addresses are not touched. *)
Lemma record_ip_other now ip ip' m :
  ip ≠ ip' → window ip' (record_ip now ip m).2 = window ip' m.
Proof. intros Hne. unfold window, record_ip. cbn [snd]. by rewrite lookup_insert_ne. Qed.

Lemma filter_length_le' (f : Z → bool) l : (length (List.filter f l) ≤ length l)%nat.
Proof. induction l as [|a l IH]; simpl; [lia|]. destruct (f a); simpl; lia. Qed.

Lemma filter_all (f : Z → bool) l : forallb f l = true → List.filter f l = l.
Proof.
  induction l as [|a l IH]; simpl; [done|].
  intros [Ha Hl]%andb_true_iff. rewrite Ha. f_equal. auto.
Qed.

Lemma filter_none (f : Z → bool) l : Forall (λ t, f t = false) l → List.filter f l = [].
Proof. induction 1 as [|a l Ha _ IH]; simpl; [done|]. by rewrite Ha. Qed.

Lemma count_occ_filter_kept (f : Z → bool) l x :
  f x = true → count_occ Z.eq_dec (List.filter f l) x = count_occ Z.eq_dec l x.
Proof.
  intros Hx. induction l as [|a l IH]; simpl; [done|].
  destruct (Z.eq_dec a x) as [->|Hne].
  - rewrite Hx. simpl. destruct (Z.eq_dec x x); [|done]. by rewrite IH.
  - destruct (f a); simpl; [|done]. destruct (Z.eq_dec a x); done.
Qed.

(** Pruning at [now] and appending [now] never gives the old list back. *)
Lemma prune_append_changes now l : List.filter (recent now) l ++ [now] ≠ l.
Proof.
  intros Heq. apply (f_equal (λ l', count_occ Z.eq_dec l' now)) in Heq.
  rewrite count_occ_app, count_occ_filter_kept in Heq by apply recent_refl.
  simpl in Heq. destruct (Z.eq_dec now now); [lia|done].
Qed.

Lemma within_period_app_recent w now rest :
  within_period (w ++ now :: rest) = true → forallb (recent now) w = true.
Proof.
  induction w as [|a w IH]; simpl; [done|].
  intros [Ha Hw]%andb_true_iff. rewrite forallb_app in Ha.
  apply andb_true_iff in Ha as [_ Ha]. simpl in Ha.
  apply andb_true_iff in Ha as [Ha _]. rewrite Ha. simpl. auto.
Qed.

Lemma checks_cons ip now rest m :
  checks ip (now :: rest) m
  = ((record_ip now ip m).1 :: (checks ip rest (record_ip now ip m).2).1,
     (checks ip rest (record_ip now ip m).2).2).
Proof. reflexivity. Qed.

(** In a burst, nothing is pruned, and the [k]-th check (from 0) is flagged
    exactly when the window, with it, is longer than the limit. *)
Lemma checks_burst ip times : ∀ m k,
  within_period (window ip m ++ times) = true →
  (k < length times)%nat →
  (checks ip times m).1 !! k
  = Some (bool_decide (RATE_LIMIT < length (window ip m) + k + 1)%nat).
Proof.
  induction times as [|now rest IH]; intros m k Hw Hk; [simpl in Hk; lia|].
  pose proof (within_period_app_recent _ _ _ Hw) as Hall.
  rewrite checks_cons. cbn [fst].
  destruct k as [|k]; cbn [lookup list_lookup].
  - rewrite record_ip_flag, (filter_all _ _ Hall), length_app. simpl.
    do 2 f_equal. apply bool_decide_ext. lia.
  - rewrite IH.
    + rewrite record_ip_window, (filter_all _ _ Hall), length_app. simpl.
      f_equal. apply bool_decide_ext. lia.
    + rewrite record_ip_window, (filter_all _ _ Hall), <- app_assoc. done.
    + simpl in Hk. lia.
Qed.

(** The filter of [record_ip] keeps the timestamps that are less than sixty
    million microseconds older than the reading. *)
Lemma recent_lt now t : recent now t = true ↔ now - t < 60000000.
Proof. unfold recent, total_seconds_lt, RATE_PERIOD. rewrite Z.ltb_lt. lia. Qed.

Lemma recent_ge now t : recent now t = false ↔ 60000000 ≤ now - t.
Proof. unfold recent, total_seconds_lt, RATE_PERIOD. rewrite Z.ltb_ge. lia. Qed.

Lemma filter_recent now l :
  List.filter (recent now) l = filter (λ t, now - t < 60000000) l.
Proof.
  induction l as [|a l IH]; [done|]. simpl. rewrite filter_cons.
  destruct (recent now a) eqn:Ha; case_decide as Hlt.
  - by rewrite IH.
  - by apply recent_lt in Ha.
  - apply recent_ge in Ha. lia.
  - done.
Qed.

(** A burst fits in one period when each reading is less than sixty
    seconds after every earlier one. *)
Lemma within_period_pairwise times :
  within_period times = true
  ↔ ∀ i j ti tj, (i < j)%nat → times !! i = Some ti → times !! j = Some tj →
      tj - ti < 60000000.
Proof.
  induction times as [|t rest IH]; simpl.
  - split; [|done]. intros _ i j ti tj _ Hi. by destruct i.
  - rewrite andb_true_iff, IH, forallb_forall. split.
    + intros [Hfirst Hrest] i j ti tj Hij Hi Hj.
      destruct j as [|j]; [lia|]. destruct i as [|i]; simpl in Hi, Hj.
      * injection Hi as <-. apply recent_lt, Hfirst, list_elem_of_In.
        by eapply list_elem_of_lookup_2.
      * apply (Hrest i j); [lia|done|done].
    + intros Hall. split.
      * intros t' [j Hj]%list_elem_of_In%list_elem_of_lookup_1.
        apply recent_lt, (Hall 0%nat (S j)); [lia|done|done].
      * intros i j ti tj Hij Hi Hj. apply (Hall (S i) (S j)); [lia|done|done].
Qed.

(** [C3]: an admission check is let in exactly when, after pruning and
    appending the current call, the address has at most 5 timestamps less
    than 60 s (60,000,000 microseconds) older than the current reading, that
    is, exactly when fewer than 5 of the stored timestamps are that recent;
    every check stores the stored timestamps that are less than 60 s old with
    the current reading appended, whatever it answers, and this always
    changes the stored window; a check at which every stored timestamp is 60 s
    old or more is let in; and in a burst where each call comes less than
    60 s after every earlier one, from an address with no stored timestamps,
    the calls 1 to 5 are let in and every later one is rejected. *)
Theorem record_ip_admission (now : Z) (ip : string) (m : gmap string (list Z)) :
  (allowed now ip m = true
   ↔ (length (filter (λ t, (now - t < 60000000)%Z) (window ip m ++ [now])) ≤ 5)%nat)
  ∧ (allowed now ip m = false
     ↔ (5 ≤ length (filter (λ t, (now - t < 60000000)%Z) (window ip m)))%nat)
  ∧ window ip (record_ip now ip m).2
    = filter (λ t, now - t < 60000000) (window ip m) ++ [now]
  ∧ window ip (record_ip now ip m).2 ≠ window ip m
  ∧ (Forall (λ t, 60000000 ≤ now - t) (window ip m) → allowed now ip m = true)
  ∧ (∀ times k,
       window ip m = [] →
       (∀ i j ti tj, (i < j)%nat → times !! i = Some ti → times !! j = Some tj →
          tj - ti < 60000000) →
       (k < length times)%nat →
       (checks ip times m).1 !! k = Some (bool_decide (5 ≤ k)%nat)).
Proof.
  split; [|split; [|split; [|split; [|split]]]].
  - rewrite <- filter_recent. unfold allowed.
    rewrite record_ip_flag, List.filter_app. simpl.
    rewrite recent_refl, negb_true_iff, bool_decide_eq_false. unfold RATE_LIMIT. lia.
  - rewrite <- filter_recent. unfold allowed.
    rewrite record_ip_flag, negb_false_iff, bool_decide_eq_true, length_app.
    unfold RATE_LIMIT. simpl. lia.
  - rewrite <- filter_recent. apply record_ip_window.
  - rewrite record_ip_window. apply prune_append_changes.
  - intros Hold. unfold allowed.
    rewrite record_ip_flag, filter_none, negb_true_iff.
    + apply bool_decide_eq_false. unfold RATE_LIMIT. simpl. lia.
    + eapply Forall_impl; [exact Hold|]. intros t Ht. by apply recent_ge.
  - intros times k Hempty Hburst%within_period_pairwise Hk.
    rewrite checks_burst by (rewrite ?Hempty; done).
    rewrite Hempty. simpl. f_equal. apply bool_decide_ext. unfold RATE_LIMIT. lia.
Qed.

(** A burst of seven calls nine seconds apart: the sixth and the seventh
    are rejected. A call at 70 s is rejected too, since five of the stored
    timestamps are then less than 60 s old; a call at 114 s, 60 s after the
    last one, is let in. *)
Lemma record_ip_admission_witness :
  (checks "203.0.113.7" burst7 ∅).1 = [false; false; false; false; false; true; true]
  ∧ allowed 70000000 "203.0.113.7" (checks "203.0.113.7" burst7 ∅).2 = false
  ∧ allowed 114000000 "203.0.113.7" (checks "203.0.113.7" burst7 ∅).2 = true.
Proof.
  assert (window "203.0.113.7" (checks "203.0.113.7" burst7 ∅).2 = burst7) as Hstored
    by (vm_compute; reflexivity).
  split; [|split].
  - apply list_eq. intros k.
    destruct (decide (k < 7)%nat) as [Hk|Hk].
    + destruct (record_ip_admission 0 "203.0.113.7" ∅) as (_ & _ & _ & _ & _ & Hburst).
      rewrite (Hburst burst7 k);
        [|reflexivity|apply within_period_pairwise; reflexivity|exact Hk].
      do 7 (destruct k as [|k]; [reflexivity|]). simpl in Hk. lia.
    + rewrite !lookup_ge_None_2; [done| |]; simpl; lia.
  - destruct (record_ip_admission 70000000 "203.0.113.7"
                (checks "203.0.113.7" burst7 ∅).2) as (_ & [_ Hfull] & _).
    apply Hfull. rewrite Hstored. vm_compute. lia.
  - destruct (record_ip_admission 114000000 "203.0.113.7"
                (checks "203.0.113.7" burst7 ∅).2) as (_ & _ & _ & _ & Haged & _).
    apply Haged. rewrite Hstored. unfold burst7. repeat constructor; lia.
Defined.

(** [C5], as amended: the list that a check compares with the limit has
    one element more than the stored timestamps that are still recent, hence
    at most one more than the stored list; it has at most [RATE_LIMIT + 1]
    elements when the stored list has at most [RATE_LIMIT], which is the case
    after a check that was admitted and for an address with no stored
    timestamps. *)
Theorem window_length (now : Z) (ip : string) (m : gmap string (list Z)) :
  let seen := window ip (record_ip now ip m).2 in
  length seen = S (length (List.filter (recent now) (window ip m)))
  ∧ (length seen ≤ S (length (window ip m)))%nat
  ∧ ((length (window ip m) ≤ RATE_LIMIT)%nat → (length seen ≤ RATE_LIMIT + 1)%nat)
  ∧ (∀ now0 m0,
       m = (record_ip now0 ip m0).2 → allowed now0 ip m0 = true →
       (length seen ≤ RATE_LIMIT + 1)%nat)
  ∧ (window ip m = [] → length seen = 1%nat).
Proof.
  intros seen. subst seen. rewrite record_ip_window, length_app.
  pose proof (filter_length_le' (recent now) (window ip m)) as Hle.
  unfold RATE_LIMIT. cbn [length].
  split; [lia|]. split; [lia|]. split; [lia|]. split.
  - intros now0 m0 -> Hok. unfold allowed in Hok.
    rewrite record_ip_flag, negb_true_iff, bool_decide_eq_false in Hok.
    unfold RATE_LIMIT in Hok. rewrite record_ip_window in *. lia.
  - intros Hnone. rewrite Hnone. reflexivity.
Qed.

Lemma window_length_witness :
  (length (window "203.0.113.7" (record_ip 9000000 "203.0.113.7" (record_ip 0 "203.0.113.7" ∅).2).2)
   ≤ RATE_LIMIT + 1)%nat.
Proof.
  destruct (window_length 9000000 "203.0.113.7" (record_ip 0 "203.0.113.7" ∅).2)
    as (_ & _ & _ & Hprev & _).
  apply (Hprev 0 ∅); [reflexivity|]. vm_compute. reflexivity.
Defined.

(** The seventh check of a burst compares a list of seven timestamps with
    the limit. *)
Lemma window_grows_past_limit :
  windows_seen "203.0.113.7" burst7 ∅ !! 6%nat = Some burst7
  ∧ length burst7 = 7%nat
  ∧ ¬ (length burst7 ≤ RATE_LIMIT + 1)%nat.
Proof.
  split; [vm_compute; reflexivity|]. split; [reflexivity|].
  unfold RATE_LIMIT. simpl. lia.
Qed.

End RateLimitFacts.

(** ** Properties of the string operations *)

Module PyFacts.
Import Py.

Lemma strip_prefix_app p r : strip_prefix p (p +:+ r) = Some r.
Proof.
  induction p as [|a p IH]; simpl; [by destruct r|].
  by rewrite Ascii.eqb_refl.
Qed.

Lemma strip_prefix_Some p s r : strip_prefix p s = Some r → s = p +:+ r.
Proof.
  revert s. induction p as [|a p IH]; intros s; simpl.
  - by intros [= ->].
  - destruct s as [|b s]; [done|].
    destruct (Ascii.eqb_spec a b) as [->|]; [|done].
    intros Hs. by rewrite (IH _ Hs).
Qed.

Lemma startswith_strip s p : startswith s p = true ↔ is_Some (strip_prefix p s).
Proof.
  unfold startswith. revert s. induction p as [|a p IH]; intros s; simpl.
  - destruct s; simpl; split; eauto.
  - destruct s as [|b s]; simpl.
    + split; [done|]. by intros [? ?].
    + destruct (Ascii.eqb_spec a b) as [->|Hne].
      * destruct (Ascii.ascii_dec b b); [apply IH|done].
      * destruct (Ascii.ascii_dec a b); [done|]. split; [done|]. by intros [? ?].
Qed.

Lemma startswith_app p r : startswith (p +:+ r) p = true.
Proof. apply startswith_strip. rewrite strip_prefix_app. eauto. Qed.

Lemma startswith_inv s p : startswith s p = true → ∃ r, s = p +:+ r.
Proof.
  intros [r Hr]%startswith_strip. exists r. by apply strip_prefix_Some.
Qed.

(** Two keys with prefixes that differ on a character are different. *)
Lemma startswith_ne s p : startswith s p = false → ∀ r, s ≠ p +:+ r.
Proof. intros Hs r ->. by rewrite startswith_app in Hs. Qed.

Lemma length_append (a b : string) :
  String.length (a +:+ b) = (String.length a + String.length b)%nat.
Proof. induction a as [|c a IH]; simpl; [done|]. by rewrite IH. Qed.

Lemma append_nil_l (s : string) : "" +:+ s = s.
Proof. reflexivity. Qed.

Lemma append_cons c (a b : string) : String c a +:+ b = String c (a +:+ b).
Proof. reflexivity. Qed.

(** [partition] cuts at an occurrence of the separator, *)
Lemma partition_Some sep s before after :
  partition sep s = Some (before, after) → s = before +:+ sep +:+ after.
Proof.
  revert before after. induction s as [|c s IH]; intros before after; simpl.
  - destruct (strip_prefix sep "") as [r|] eqn:Hp; [|done].
    intros [= <- <-]. rewrite append_nil_l. by apply strip_prefix_Some.
  - destruct (strip_prefix sep (String c s)) as [r|] eqn:Hp.
    + intros [= <- <-]. rewrite append_nil_l. by apply strip_prefix_Some.
    + destruct (partition sep s) as [[b a]|]; [|done].
      intros [= <- <-]. rewrite append_cons. f_equal. by apply IH.
Qed.

(** which is the leftmost one, *)
Lemma partition_leftmost sep s before after :
  partition sep s = Some (before, after) →
  ∀ before' after', s = before' +:+ sep +:+ after' →
    (String.length before ≤ String.length before')%nat.
Proof.
  revert before after. induction s as [|c s IH]; intros before after; simpl.
  - destruct (strip_prefix sep "") as [r|] eqn:Hp; [|done].
    intros [= <- <-] ?? _. simpl. lia.
  - destruct (strip_prefix sep (String c s)) as [r|] eqn:Hp.
    + intros [= <- <-] ?? _. simpl. lia.
    + destruct (partition sep s) as [[b a]|] eqn:Hs; [|done].
      intros [= <- <-] before' after' Heq.
      destruct before' as [|c' before'].
      * rewrite append_nil_l in Heq. rewrite Heq, strip_prefix_app in Hp. done.
      * rewrite append_cons in Heq. injection Heq as -> Heq. simpl.
        specialize (IH _ _ eq_refl _ _ Heq). lia.
Qed.

(** and it finds one whenever there is one. *)
Lemma partition_None sep s : partition sep s = None ↔ ¬ occurs sep s.
Proof.
  split.
  - intros Hp (before & after & ->). revert Hp.
    induction before as [|c before IH].
    + rewrite append_nil_l.
      destruct (sep +:+ after) eqn:Heq; simpl; by rewrite <- ?Heq, strip_prefix_app.
    + rewrite append_cons. simpl. destruct (strip_prefix sep _); [done|].
      destruct (partition sep (before +:+ sep +:+ after)) as [[??]|]; [done|].
      intros _. by apply IH.
  - intros Hno. destruct (partition sep s) as [[b a]|] eqn:Hp; [|done].
    exfalso. apply Hno. exists b, a. by apply partition_Some.
Qed.

Lemma partition_empty sep : sep ≠ "" → partition sep "" = None.
Proof.
  intros Hsep. destruct (partition sep "") as [[b a]|] eqn:Hp; [|done].
  apply partition_Some, (f_equal String.length) in Hp.
  rewrite !length_append in Hp. destruct sep; [done|]. simpl in Hp. lia.
Qed.

Lemma split_fuel_S fuel sep s :
  split_fuel (S fuel) sep s
  = match partition sep s with
    | None => [s]
    | Some (before, after) => before :: split_fuel fuel sep after
    end.
Proof. reflexivity. Qed.

(** The rounds given to [split] are enough: with a non-empty separator it
    satisfies the equation of the unbounded loop. *)
Lemma split_fuel_enough sep s : ∀ fuel fuel',
  sep ≠ "" →
  (String.length s ≤ fuel)%nat → (String.length s ≤ fuel')%nat →
  split_fuel fuel sep s = split_fuel fuel' sep s.
Proof.
  intros fuel. revert s. induction fuel as [|fuel IH]; intros s fuel' Hsep Hf Hf'.
  - destruct s; [|simpl in Hf; lia].
    destruct fuel'; [done|]. by rewrite split_fuel_S, partition_empty.
  - rewrite split_fuel_S. destruct fuel' as [|fuel'].
    + destruct s; [|simpl in Hf'; lia]. by rewrite partition_empty.
    + rewrite split_fuel_S.
      destruct (partition sep s) as [[b a]|] eqn:Hp; [|done].
      f_equal. apply partition_Some, (f_equal String.length) in Hp.
      rewrite !length_append in Hp.
      assert (0 < String.length sep)%nat by (destruct sep; [done|simpl; lia]).
      apply IH; [done|lia|lia].
Qed.

Lemma split_eq sep s :
  sep ≠ "" →
  split sep s
  = match partition sep s with
    | None => [s]
    | Some (before, after) => before :: split sep after
    end.
Proof.
  intros Hsep. unfold split.
  destruct (partition sep s) as [[b a]|] eqn:Hp.
  - pose proof (partition_Some _ _ _ _ Hp) as Hs.
    apply (f_equal String.length) in Hs. rewrite !length_append in Hs.
    assert (0 < String.length sep)%nat by (destruct sep; [done|simpl; lia]).
    rewrite (split_fuel_enough sep s _ (S (String.length s))) by (done || lia).
    rewrite split_fuel_S, Hp. f_equal.
    apply split_fuel_enough; [done|lia|lia].
  - destruct (String.length s); simpl; by rewrite ?Hp.
Qed.

Lemma split_prefixed sep s :
  sep ≠ "" → split sep (sep +:+ s) !! 1%nat = Some (second_part sep s).
Proof.
  intros Hsep. rewrite split_eq by done.
  assert (partition sep (sep +:+ s) = Some ("", s)) as ->.
  { destruct (sep +:+ s) eqn:Heq; simpl; rewrite <- ?Heq, strip_prefix_app; done. }
  simpl. rewrite split_eq by done. unfold second_part.
  by destruct (partition sep s) as [[??]|].
Qed.

End PyFacts.

(** ** Runs of the callback handler *)

Module HandlerFacts.
Import Py PyFacts Handler.

Ltac run :=
  unfold db_contains, db_getitem, db_setitem, db_delitem, db_items, notify_staff_sync,
    requests, raise_for_status, json, getitem, index, emit, bind, ret, raise, try_except,
    error_status;
  cbn [db ip_requests log fst snd negb].

(** The three kinds of keys never collide. *)
Lemma state_key_ne_user a b : "state:" +:+ a ≠ "user:" +:+ b.
Proof. rewrite !append_cons. intros [=]. Qed.

Lemma pool_key_ne_user k b : startswith k "key:" = true → k ≠ "user:" +:+ b.
Proof. intros [r ->]%startswith_inv. rewrite !append_cons. intros [=]. Qed.

Lemma pool_key_ne_state k b : startswith k "key:" = true → k ≠ "state:" +:+ b.
Proof. intros [r ->]%startswith_inv. rewrite !append_cons. intros [=]. Qed.

Lemma user_key_not_pool id : startswith (user_key id) "key:" = false.
Proof. unfold user_key. rewrite append_cons. reflexivity. Qed.

Lemma state_key_not_pool request : startswith (state_key request) "key:" = false.
Proof. unfold state_key. rewrite append_cons. reflexivity. Qed.

Lemma resolve_lookup_user d id now :
  resolve d id now !! user_key id
  = Some (default (new_account id now) (d !! user_key id)).
Proof.
  unfold resolve. destruct (d !! user_key id) eqn:Hu; simpl; [done|].
  by rewrite lookup_insert_eq.
Qed.

Lemma resolve_lookup_other d id now k :
  k ≠ user_key id → resolve d id now !! k = d !! k.
Proof.
  intros Hne. unfold resolve. destruct (d !! user_key id); [done|].
  by rewrite lookup_insert_ne.
Qed.

(** *** The identity exchange *)

Lemma exchange_dichotomy w : ExchangeFails w ∨ ∃ email, ExchangeSucceeds w email.
Proof.
  destruct (token_resp w) as [|st [tok|]] eqn:Ht;
    [left; by apply token_no_response| |left; by eapply token_unreadable].
  destruct (decide (error_status st)) as [Hst|Hst];
    [left; by eapply token_error_status|].
  destruct (user_resp w) as [|st' [email|]] eqn:Hp;
    [left; by apply profile_no_response| |left; by eapply profile_unreadable].
  destruct (decide (error_status st')) as [Hst'|Hst'];
    [left; by eapply profile_error_status|].
  destruct (truthy email) eqn:He; [|left; by eapply profile_without_email].
  right. exists email, st, tok, st'. done.
Qed.

Lemma exchange_exclusive w email : ExchangeFails w → ExchangeSucceeds w email → False.
Proof.
  intros Hf (st & tok & st' & Ht & Hst & Hp & Hst' & He).
  destruct Hf as [H|? ? H ?|? H|H|? ? H ?|? H|? ? H ?]; congruence.
Qed.

Lemma exchange_succeeds w code id uk m rec email :
  db m !! uk = Some rec →
  ExchangeSucceeds w email →
  exchange w code id uk m
  = (Return tt,
     mkMem (<[uk := <["email" := email]> rec]> (db m)) (ip_requests m)
       (log m ++ exchange_calls w code
              ++ [DbGet uk; DbSet uk (<["email" := email]> rec);
                  Notify (DiscordLinked id email)])).
Proof.
  intros Hu (st & tok & st' & Ht & Hst & Hp & Hst' & He).
  unfold exchange, exchange_calls. run.
  rewrite Ht. run. rewrite !bool_decide_eq_false_2 by done. run.
  rewrite Hp. run. rewrite bool_decide_eq_false_2 by done. run.
  rewrite He. run. rewrite Hu. run. simpl. rewrite <- !app_assoc. reflexivity.
Qed.

Lemma exchange_fails w code id uk m :
  ExchangeFails w →
  ∃ e, exchange w code id uk m
       = (Raise e, mkMem (db m) (ip_requests m) (log m ++ exchange_calls w code)).
Proof.
  intros Hf. unfold exchange, exchange_calls. run.
  destruct (token_resp w) as [|st [tok|]] eqn:Ht; run; eauto;
    (destruct (decide (400 ≤ st < 600)) as [Hst|Hst];
     [rewrite !bool_decide_eq_true_2 by done; eauto
     |rewrite !bool_decide_eq_false_2 by done; run]); eauto.
  rewrite <- app_assoc. simpl.
  destruct (user_resp w) as [|st' [email|]] eqn:Hp; run; eauto;
    (destruct (decide (400 ≤ st' < 600)) as [Hst'|Hst'];
     [rewrite !bool_decide_eq_true_2 by done; eauto
     |rewrite !bool_decide_eq_false_2 by done; run]); eauto.
  destruct (truthy email) eqn:He; run; eauto.
  exfalso. eapply exchange_exclusive; [done|].
  exists st, tok, st'. done.
Qed.

(** *** The dispensing loop *)

Section Runs.

Variable items_order : Db → list (string * Rec).

(** The listing has the entries of the store, each once, in some order. *)
Hypothesis items_order_perm : ∀ d : Db, items_order d ≡ₚ map_to_list d.

Lemma items_order_lookup d k v : (k, v) ∈ items_order d ↔ d !! k = Some v.
Proof. rewrite items_order_perm. apply elem_of_map_to_list. Qed.

Lemma dispense_first_run w id uk items m :
  dispense_first w id uk items m
  = match first_pool_key items with
    | Some k => dispense w id uk k m
    | None => (Return tt, m)
    end.
Proof.
  unfold first_pool_key. induction items as [|[k v] items IH]; simpl; [done|].
  destruct (startswith k "key:"); simpl; [done|]. apply IH.
Qed.

Lemma first_pool_key_Some d k :
  first_pool_key (items_order d) = Some k →
  startswith k "key:" = true ∧ is_Some (d !! k).
Proof.
  unfold first_pool_key.
  destruct (List.find _ _) as [[k' v]|] eqn:Hf; [|done].
  intros [= <-]. apply List.find_some in Hf as [Hin Hk]. split; [done|].
  exists v. apply items_order_lookup. by apply list_elem_of_In.
Qed.

Lemma first_pool_key_None d :
  first_pool_key (items_order d) = None ↔
  ∀ k, is_Some (d !! k) → startswith k "key:" = false.
Proof.
  unfold first_pool_key. split.
  - destruct (List.find _ _) as [[k' v']|] eqn:Hf; [done|].
    intros _ k [v Hv]. apply items_order_lookup, list_elem_of_In in Hv.
    apply (List.find_none _ _ Hf (k, v) Hv).
  - intros Hno. destruct (List.find _ _) as [[k' v']|] eqn:Hf; [|done].
    apply List.find_some in Hf as [Hin Hk]. simpl in Hk.
    apply list_elem_of_In, items_order_lookup in Hin.
    rewrite Hno in Hk; [done|eauto].
Qed.

(** The pool of the store is empty exactly when the listing has no pool
    entry. *)
Lemma pool_empty_first d : pool d = ∅ ↔ first_pool_key (items_order d) = None.
Proof.
  rewrite first_pool_key_None, map_empty. unfold pool. split.
  - intros Hall k [v Hv]. destruct (startswith k "key:") eqn:Hk; [|done].
    specialize (Hall k).
    assert (filter (λ kv, startswith kv.1 "key:" = true) d !! k = Some v) as Hin
      by (by apply map_lookup_filter_Some).
    congruence.
  - intros Hall k. apply eq_None_not_Some.
    intros [v [Hv Hk]%map_lookup_filter_Some]. simpl in Hk.
    rewrite Hall in Hk; [done|eauto].
Qed.

Lemma delivery_run w id key_str m :
  try_except
    (dm <- requests (DmOpen id) (dm_resp w) ;;
     raise_for_status dm ;;
     cid <- json dm ;;
     requests (DmSend cid key_str) (message_resp w) ;;
     ret tt)%py
    (λ e, notify_staff_sync (DmDeliveryFailed id key_str)) m
  = (Return tt, mkMem (db m) (ip_requests m) (log m ++ delivery w id key_str)).
Proof.
  unfold delivery. run.
  destruct (dm_resp w) as [|st [cid|]]; run;
    [by rewrite <- app_assoc| |];
    (destruct (decide (400 ≤ st < 600)) as [Hst|Hst];
     [rewrite !bool_decide_eq_true_2 by done
     |rewrite !bool_decide_eq_false_2 by done]; run;
     rewrite <- ?app_assoc; try done).
  destruct (message_resp w) as [|st' b]; run; rewrite <- ?app_assoc; done.
Qed.

Lemma dispense_run w id k key_str m v rec :
  split "key:" k !! 1%nat = Some key_str →
  db m !! k = Some v →
  db m !! user_key id = Some rec →
  k ≠ user_key id →
  dispense w id (user_key id) k m
  = (Return tt,
     mkMem (<[user_key id := annotate rec key_str (now_isoformat w)]> (delete k (db m)))
       (ip_requests m)
       (log m ++ [DbDel k; DbGet (user_key id);
                  DbSet (user_key id) (annotate rec key_str (now_isoformat w))]
              ++ delivery w id key_str
              ++ [Notify (KeyDispensed id key_str)])).
Proof.
  intros Hsplit Hk Hu Hne. unfold dispense.
  unfold index at 1, bind at 1. rewrite Hsplit.
  unfold ret at 1. cbn beta iota.
  unfold db_delitem at 1, emit at 1, bind at 1 2. cbn [db ip_requests log]. rewrite Hk.
  unfold bind at 1. unfold db_getitem at 1, emit at 1, bind at 1. cbn [db ip_requests log].
  rewrite lookup_delete_ne, Hu by done.
  unfold bind at 1. unfold db_setitem at 1, emit at 1, bind at 1. cbn [db ip_requests log].
  unfold bind at 1. rewrite delivery_run. cbn [db ip_requests log].
  unfold notify_staff_sync, emit, annotate. cbn [db ip_requests log].
  rewrite <- !app_assoc. reflexivity.
Qed.

(** *** The paths of the handler *)

Lemma callback_rate_limited w request m :
  allowed w request m = false →
  oauth_callback items_order w request m
  = (Raise (HTTPException 429 "Too many requests"),
     mkMem (db m)
       (RateLimit.record_ip (clock w) (client_host request) (ip_requests m)).2
       (log m ++ [Notify (RateLimitExceeded (client_host request))])).
Proof.
  unfold allowed, RateLimit.allowed. intros Ha%negb_false_iff.
  unfold oauth_callback, record_ip. unfold bind at 1. rewrite Ha. by run.
Qed.

Lemma callback_incomplete w request m :
  allowed w request m = true →
  complete request = false →
  oauth_callback items_order w request m
  = (Raise (HTTPException 400 "Missing code or state"),
     mkMem (db m)
       (RateLimit.record_ip (clock w) (client_host request) (ip_requests m)).2
       (log m ++ [Notify (MissingCodeOrState (client_host request))])).
Proof.
  unfold allowed, RateLimit.allowed, complete. intros Ha%negb_true_iff Hc.
  unfold oauth_callback, record_ip. unfold bind at 1. rewrite Ha.
  rewrite <- negb_andb, Hc. by run.
Qed.

Lemma callback_unknown_state w request m :
  allowed w request m = true →
  complete request = true →
  db m !! state_key request = None →
  oauth_callback items_order w request m
  = (Raise (HTTPException 400 "Invalid state"),
     mkMem (db m)
       (RateLimit.record_ip (clock w) (client_host request) (ip_requests m)).2
       (log m ++ [DbContains (state_key request);
                  Notify (StateNotFound (query_state request) (client_host request))])).
Proof.
  unfold allowed, RateLimit.allowed, complete. intros Ha%negb_true_iff Hc Hs.
  unfold oauth_callback, record_ip. unfold bind at 1. rewrite Ha.
  rewrite <- negb_andb, Hc. cbn [negb]. fold (state_key request).
  unfold db_contains at 1, emit at 1, bind at 1 2. cbn [db ip_requests log].
  rewrite Hs, bool_decide_eq_false_2 by (by intros [? ?]). run.
  by rewrite <- app_assoc.
Qed.

Lemma callback_malformed_state w request m srec :
  allowed w request m = true →
  complete request = true →
  db m !! state_key request = Some srec →
  srec !! "user_id" = None →
  oauth_callback items_order w request m
  = (Raise (KeyError "user_id"),
     mkMem (db m)
       (RateLimit.record_ip (clock w) (client_host request) (ip_requests m)).2
       (log m ++ [DbContains (state_key request); DbGet (state_key request)])).
Proof.
  unfold allowed, RateLimit.allowed, complete. intros Ha%negb_true_iff Hc Hs Hid.
  unfold oauth_callback, record_ip. unfold bind at 1. rewrite Ha.
  rewrite <- negb_andb, Hc. cbn [negb]. fold (state_key request).
  unfold db_contains at 1, emit at 1, bind at 1 2. cbn [db ip_requests log].
  rewrite Hs, bool_decide_eq_true_2 by eauto. cbn [negb].
  unfold db_getitem at 1, emit at 1, bind at 1 2. cbn [db ip_requests log].
  rewrite Hs. unfold getitem at 1, bind at 1. rewrite Hid. run.
  by rewrite <- app_assoc.
Qed.

Lemma callback_resolved w request m srec id :
  allowed w request m = true →
  complete request = true →
  db m !! state_key request = Some srec →
  srec !! "user_id" = Some id →
  oauth_callback items_order w request m
  = (try_except
       (exchange w (query_code request) id (user_key id))
       (λ e, notify_staff_sync (BotError id) ;;
             raise (HTTPException 500 "OAuth failure")) ;;
     items <- db_items items_order ;;
     dispense_first w id (user_key id) items ;;
     ret (RedirectResponse "https://skyspoofer.com"))%py
      (mkMem (delete (state_key request) (resolve (db m) id (now_isoformat w)))
         (RateLimit.record_ip (clock w) (client_host request) (ip_requests m)).2
         (log m ++ prelude request (db m) id (now_isoformat w))).
Proof.
  unfold allowed, RateLimit.allowed, complete. intros Ha%negb_true_iff Hc Hs Hid.
  unfold oauth_callback, record_ip. unfold bind at 1. rewrite Ha.
  rewrite <- negb_andb, Hc. cbn [negb]. fold (state_key request).
  unfold db_contains at 1, emit at 1, bind at 1 2. cbn [db ip_requests log].
  rewrite Hs, bool_decide_eq_true_2 by eauto. cbn [negb].
  unfold db_getitem at 1, emit at 1, bind at 1 2. cbn [db ip_requests log].
  rewrite Hs. unfold getitem at 1, bind at 1. rewrite Hid. unfold ret at 1.
  fold (user_key id). fold (new_account id (now_isoformat w)).
  unfold db_contains at 1, emit at 1, bind at 1 2. cbn [db ip_requests log].
  unfold prelude, resolve, resolution.
  assert (state_key request ≠ user_key id) as Hne by apply state_key_ne_user.
  destruct (db m !! user_key id) as [urec|] eqn:Hu.
  - rewrite bool_decide_eq_true_2 by eauto.
    unfold bind at 1, notify_staff_sync at 1, emit at 1. cbn [db ip_requests log].
    unfold bind at 1, db_delitem at 1, emit at 1, bind at 1. cbn [db ip_requests log].
    rewrite Hs. rewrite <- !app_assoc. reflexivity.
  - rewrite bool_decide_eq_false_2 by (by intros [? ?]).
    unfold bind at 1, db_setitem at 1, emit at 1, bind at 1. cbn [db ip_requests log].
    unfold bind at 1, db_delitem at 1, emit at 1, bind at 1. cbn [db ip_requests log].
    rewrite lookup_insert_ne, Hs by done. rewrite <- !app_assoc. reflexivity.
Qed.

Lemma consumed_lookup_user request d id now :
  delete (state_key request) (resolve d id now) !! user_key id = Some (account d id now).
Proof.
  rewrite lookup_delete_ne by apply state_key_ne_user. apply resolve_lookup_user.
Qed.

Lemma callback_exchange_failed w request m srec id :
  allowed w request m = true →
  complete request = true →
  db m !! state_key request = Some srec →
  srec !! "user_id" = Some id →
  ExchangeFails w →
  oauth_callback items_order w request m
  = (Raise (HTTPException 500 "OAuth failure"),
     mkMem (delete (state_key request) (resolve (db m) id (now_isoformat w)))
       (RateLimit.record_ip (clock w) (client_host request) (ip_requests m)).2
       (log m ++ prelude request (db m) id (now_isoformat w)
              ++ exchange_calls w (query_code request)
              ++ [Notify (BotError id)])).
Proof.
  intros Ha Hc Hs Hid Hf. rewrite (callback_resolved _ _ _ _ _ Ha Hc Hs Hid).
  unfold bind at 1, try_except at 1.
  edestruct exchange_fails as [e ->]; [done|]. cbn [db ip_requests log].
  run. by rewrite <- !app_assoc.
Qed.

Lemma callback_linked w request m srec id email :
  allowed w request m = true →
  complete request = true →
  db m !! state_key request = Some srec →
  srec !! "user_id" = Some id →
  ExchangeSucceeds w email →
  first_pool_key (items_order (linked_db request (db m) id (now_isoformat w) email)) = None →
  oauth_callback items_order w request m
  = (Return (RedirectResponse "https://skyspoofer.com"),
     mkMem (linked_db request (db m) id (now_isoformat w) email)
       (RateLimit.record_ip (clock w) (client_host request) (ip_requests m)).2
       (log m ++ prelude request (db m) id (now_isoformat w)
              ++ exchange_calls w (query_code request)
              ++ [DbGet (user_key id);
                  DbSet (user_key id)
                    (<["email" := email]> (account (db m) id (now_isoformat w)));
                  Notify (DiscordLinked id email); DbItems])).
Proof.
  intros Ha Hc Hs Hid He Hpool. rewrite (callback_resolved _ _ _ _ _ Ha Hc Hs Hid).
  unfold bind at 1, try_except at 1.
  erewrite exchange_succeeds; [|apply consumed_lookup_user|done].
  cbn [db ip_requests log]. fold (linked_db request (db m) id (now_isoformat w) email).
  unfold bind at 1, db_items at 1, emit at 1, bind at 1. cbn [db ip_requests log].
  unfold bind at 1. rewrite dispense_first_run, Hpool. unfold ret.
  rewrite <- !app_assoc. reflexivity.
Qed.

Lemma callback_dispensed w request m srec id email k key_str :
  allowed w request m = true →
  complete request = true →
  db m !! state_key request = Some srec →
  srec !! "user_id" = Some id →
  ExchangeSucceeds w email →
  first_pool_key (items_order (linked_db request (db m) id (now_isoformat w) email)) = Some k →
  split "key:" k !! 1%nat = Some key_str →
  oauth_callback items_order w request m
  = (Return (RedirectResponse "https://skyspoofer.com"),
     mkMem (<[user_key id :=
                annotate (<["email" := email]> (account (db m) id (now_isoformat w)))
                  key_str (now_isoformat w)]>
              (delete k (linked_db request (db m) id (now_isoformat w) email)))
       (RateLimit.record_ip (clock w) (client_host request) (ip_requests m)).2
       (log m ++ prelude request (db m) id (now_isoformat w)
              ++ exchange_calls w (query_code request)
              ++ [DbGet (user_key id);
                  DbSet (user_key id)
                    (<["email" := email]> (account (db m) id (now_isoformat w)));
                  Notify (DiscordLinked id email); DbItems;
                  DbDel k; DbGet (user_key id);
                  DbSet (user_key id)
                    (annotate (<["email" := email]> (account (db m) id (now_isoformat w)))
                       key_str (now_isoformat w))]
              ++ delivery w id key_str
              ++ [Notify (KeyDispensed id key_str)])).
Proof.
  intros Ha Hc Hs Hid He Hpool Hsplit.
  rewrite (callback_resolved _ _ _ _ _ Ha Hc Hs Hid).
  unfold bind at 1, try_except at 1.
  erewrite exchange_succeeds; [|apply consumed_lookup_user|done].
  cbn [db ip_requests log]. fold (linked_db request (db m) id (now_isoformat w) email).
  unfold bind at 1, db_items at 1, emit at 1, bind at 1. cbn [db ip_requests log].
  unfold bind at 1. rewrite dispense_first_run, Hpool.
  destruct (first_pool_key_Some _ _ Hpool) as [Hk [v Hv]].
  erewrite dispense_run; [|done|apply Hv| |by apply pool_key_ne_user].
  - unfold ret. cbn [db ip_requests log]. rewrite <- !app_assoc. reflexivity.
  - cbn [db]. unfold linked_db. apply lookup_insert_eq.
Qed.

(** A pool key always has a second part. *)
Lemma pool_key_split k :
  startswith k "key:" = true → ∃ key_str, split "key:" k !! 1%nat = Some key_str.
Proof.
  intros [r ->]%startswith_inv. eexists. by apply split_prefixed.
Qed.

(** The three runs of a request whose state is found. *)
Lemma callback_resolved_cases w request m srec id :
  allowed w request m = true →
  complete request = true →
  db m !! state_key request = Some srec →
  srec !! "user_id" = Some id →
  let now := now_isoformat w in
  let ipr := (RateLimit.record_ip (clock w) (client_host request) (ip_requests m)).2 in
  let before := log m ++ prelude request (db m) id now
                      ++ exchange_calls w (query_code request) in
  (ExchangeFails w ∧
   oauth_callback items_order w request m
   = (Raise (HTTPException 500 "OAuth failure"),
      mkMem (delete (state_key request) (resolve (db m) id now)) ipr
        (before ++ [Notify (BotError id)])))
  ∨ ∃ email,
      ExchangeSucceeds w email ∧
      let linked := linked_db request (db m) id now email in
      let rec := <["email" := email]> (account (db m) id now) in
      let link := [DbGet (user_key id); DbSet (user_key id) rec;
                   Notify (DiscordLinked id email); DbItems] in
      ((first_pool_key (items_order linked) = None ∧
        oauth_callback items_order w request m
        = (Return (RedirectResponse "https://skyspoofer.com"),
           mkMem linked ipr (before ++ link)))
       ∨ ∃ k key_str,
           first_pool_key (items_order linked) = Some k ∧
           split "key:" k !! 1%nat = Some key_str ∧
           oauth_callback items_order w request m
           = (Return (RedirectResponse "https://skyspoofer.com"),
              mkMem (<[user_key id := annotate rec key_str now]> (delete k linked)) ipr
                (before ++ link
                   ++ [DbDel k; DbGet (user_key id);
                       DbSet (user_key id) (annotate rec key_str now)]
                   ++ delivery w id key_str
                   ++ [Notify (KeyDispensed id key_str)]))).
Proof.
  intros Ha Hc Hs Hid now ipr before. subst now ipr before.
  destruct (exchange_dichotomy w) as [Hf|[email He]].
  { left. split; [done|]. erewrite callback_exchange_failed by done.
    by rewrite <- !app_assoc. }
  right. exists email. split; [done|]. cbn zeta.
  destruct (first_pool_key
              (items_order (linked_db request (db m) id (now_isoformat w) email)))
    as [k|] eqn:Hpool.
  - right. destruct (first_pool_key_Some _ _ Hpool) as [Hk _].
    destruct (pool_key_split _ Hk) as [key_str Hsplit].
    exists k, key_str. split; [done|]. split; [done|].
    erewrite callback_dispensed by done. by rewrite <- !app_assoc.
  - left. split; [done|]. erewrite callback_linked by done.
    by rewrite <- !app_assoc.
Qed.

(** Every run ends in one of five stores. *)
Lemma callback_cases w request m :
  let r := oauth_callback items_order w request m in
  let now := now_isoformat w in
  db r.2 = db m
  ∨ ∃ srec id,
      db m !! state_key request = Some srec ∧ srec !! "user_id" = Some id ∧
      (db r.2 = delete (state_key request) (resolve (db m) id now)
       ∨ ∃ email,
           ExchangeSucceeds w email ∧
           (db r.2 = linked_db request (db m) id now email
            ∨ ∃ k key_str,
                first_pool_key (items_order (linked_db request (db m) id now email))
                = Some k ∧
                split "key:" k !! 1%nat = Some key_str ∧
                db r.2 = <[user_key id :=
                             annotate (<["email" := email]> (account (db m) id now))
                               key_str now]>
                           (delete k (linked_db request (db m) id now email)))).
Proof.
  intros r now. subst r now.
  destruct (allowed w request m) eqn:Ha;
    [|left; by rewrite callback_rate_limited].
  destruct (complete request) eqn:Hc;
    [|left; by rewrite callback_incomplete].
  destruct (db m !! state_key request) as [srec|] eqn:Hs;
    [|left; by rewrite callback_unknown_state].
  destruct (srec !! "user_id") as [id|] eqn:Hid;
    [|left; by erewrite callback_malformed_state].
  right. exists srec, id. split; [done|]. split; [done|].
  destruct (exchange_dichotomy w) as [Hf|[email He]];
    [left; by erewrite callback_exchange_failed|].
  right. exists email. split; [done|].
  destruct (first_pool_key
              (items_order (linked_db request (db m) id (now_isoformat w) email)))
    as [k|] eqn:Hpool; [|left; by erewrite callback_linked].
  right. destruct (first_pool_key_Some _ _ Hpool) as [Hk _].
  destruct (pool_key_split _ Hk) as [key_str Hsplit].
  exists k, key_str. split; [done|]. split; [done|].
  by erewrite callback_dispensed.
Qed.

(** The records that are neither pool entries nor states stay in the store,
    and a run does to each of them one of the three writes. *)
Lemma callback_record_step w request m k rec :
  db m !! k = Some rec →
  startswith k "key:" = false →
  startswith k "state:" = false →
  ∃ rec', db (oauth_callback items_order w request m).2 !! k = Some rec'
          ∧ record_step rec rec'.
Proof.
  intros Hrec Hpool Hstate.
  assert (k ≠ state_key request) as Hsk.
  { intros ->. unfold state_key in Hstate. by rewrite startswith_app in Hstate. }
  destruct (callback_cases w request m)
    as [->|(srec & id & Hs & Hid & [->|(email & He & [->|(k' & ks & Hk' & Hks & ->)])])].
  - exists rec. split; [done|constructor].
  - exists rec. split; [|constructor].
    rewrite lookup_delete_ne by done.
    destruct (decide (k = user_key id)) as [->|Hne].
    + by rewrite resolve_lookup_user, Hrec.
    + by rewrite resolve_lookup_other.
  - unfold linked_db, account. destruct (decide (k = user_key id)) as [->|Hne].
    + rewrite lookup_insert_eq, Hrec. simpl. eexists. split; [done|constructor].
    + rewrite lookup_insert_ne, lookup_delete_ne, resolve_lookup_other by done.
      exists rec. split; [done|constructor].
  - destruct (first_pool_key_Some _ _ Hk') as [Hpk _].
    assert (k ≠ k') as Hkk' by (intros ->; congruence).
    unfold linked_db, account. destruct (decide (k = user_key id)) as [->|Hne].
    + rewrite lookup_insert_eq, Hrec. simpl. eexists. split; [done|constructor].
    + rewrite lookup_insert_ne, lookup_delete_ne, lookup_insert_ne,
        lookup_delete_ne, resolve_lookup_other by done.
      exists rec. split; [done|constructor].
Qed.

(** *** Rejected and failed requests *)

Lemma emitted_app m d ipr events :
  emitted m (mkMem d ipr (log m ++ events)) = events.
Proof. unfold emitted. cbn [log]. apply drop_app_length. Qed.

(** The answer to a request whose state token the store does not hold. *)
Lemma unknown_state_run w request m :
  db m !! state_key request = None →
  let r := oauth_callback items_order w request m in
  db r.2 = db m
  ∧ (allowed w request m = true → status_of r.1 = 400)
  ∧ (allowed w request m = false → status_of r.1 = 429).
Proof.
  intros Hs r. subst r.
  destruct (allowed w request m) eqn:Ha.
  - destruct (complete request) eqn:Hc.
    + by rewrite callback_unknown_state.
    + by rewrite callback_incomplete.
  - by rewrite callback_rate_limited.
Qed.

(** [C7], as amended: a request whose state token is not in the store
    leaves the store as it is, whatever the handler answers; the handler
    answers 400 when the rate limiter lets the request in, and 429 when it
    does not. *)
Theorem unknown_state_rejected w request m :
  db m !! state_key request = None →
  let r := oauth_callback items_order w request m in
  db r.2 = db m
  ∧ (allowed w request m = true → status_of r.1 = 400)
  ∧ (allowed w request m = false → status_of r.1 = 429).
Proof. apply unknown_state_run. Qed.

(** [C6]: when the identity exchange fails, for any of its causes, the
    handler raises the 500 exception after exactly one exchange-error notice,
    its last event, and the account record is the one of the account
    resolution: an existing record is untouched, and a new one has no email
    and no dispensed key. *)
Theorem exchange_failure_500 w request m srec id :
  allowed w request m = true →
  complete request = true →
  db m !! state_key request = Some srec →
  srec !! "user_id" = Some id →
  ExchangeFails w →
  let r := oauth_callback items_order w request m in
  r.1 = Raise (HTTPException 500 "OAuth failure")
  ∧ status_of r.1 = 500
  ∧ List.filter is_bot_error (emitted m r.2) = [Notify (BotError id)]
  ∧ last (emitted m r.2) = Some (Notify (BotError id))
  ∧ db r.2 !! user_key id = Some (account (db m) id (now_isoformat w))
  ∧ (∀ rec, db m !! user_key id = Some rec → db r.2 !! user_key id = Some rec)
  ∧ (db m !! user_key id = None →
     field (db r.2) (user_key id) "email" = Some None_
     ∧ field (db r.2) (user_key id) "dispensed_key" = None
     ∧ field (db r.2) (user_key id) "last_dispensed_at" = None).
Proof.
  intros Ha Hc Hs Hid Hf r. subst r.
  rewrite (callback_exchange_failed _ _ _ _ _ Ha Hc Hs Hid Hf).
  cbn [fst snd db]. rewrite emitted_app, consumed_lookup_user.
  split; [done|]. split; [done|]. split; [|split; [|split; [done|split]]].
  - rewrite !List.filter_app. unfold prelude, resolution, exchange_calls.
    destruct (db m !! user_key id); destruct (token_resp w) as [|st [tok|]];
      simpl; try done; by destruct (bool_decide _).
  - by rewrite !app_assoc, last_snoc.
  - intros rec Hrec. unfold account. by rewrite Hrec.
  - intros Hnew. unfold field, account. rewrite consumed_lookup_user.
    unfold account. rewrite Hnew. done.
Qed.

Lemma untouched_calls k w code :
  Forall (λ e, touches k e = false) (exchange_calls w code).
Proof.
  unfold exchange_calls. destruct (token_resp w) as [|st [tok|]];
    try destruct (bool_decide _); repeat constructor.
Qed.

Lemma untouched_delivery k w id key_str :
  Forall (λ e, touches k e = false) (delivery w id key_str).
Proof.
  unfold delivery. destruct (dm_resp w) as [|st [cid|]];
    try destruct (bool_decide _); try destruct (message_resp w);
    repeat constructor.
Qed.

(** [C2], as amended: when the state token is found, the handler reads the
    state entry, looks the account record up, creates it or notifies the
    duplicate attempt, and then deletes the state entry; the identity
    exchange comes next, and nothing after the deletion touches the entry
    again; the entry is absent from the store after the run, so the next
    request with the same token does not pass the state check: it leaves the
    store as it is, and it is answered 400 when the rate limiter lets it in
    and 429 when it does not. *)
Theorem state_consumed_after_resolution w request m srec id :
  allowed w request m = true →
  complete request = true →
  db m !! state_key request = Some srec →
  srec !! "user_id" = Some id →
  let r := oauth_callback items_order w request m in
  (∃ rest,
     emitted m r.2
     = [DbContains (state_key request); DbGet (state_key request);
        DbContains (user_key id); resolution (db m) id (now_isoformat w);
        DbDel (state_key request)]
       ++ TokenExchange (query_code request) :: rest
     ∧ Forall (λ e, touches (state_key request) e = false) rest)
  ∧ db r.2 !! state_key request = None
  ∧ (∀ w' request',
       state_key request' = state_key request →
       let r' := oauth_callback items_order w' request' r.2 in
       db r'.2 = db r.2
       ∧ (allowed w' request' r.2 = true → status_of r'.1 = 400)
       ∧ (allowed w' request' r.2 = false → status_of r'.1 = 429)).
Proof.
  intros Ha Hc Hs Hid r.
  assert (state_key request ≠ user_key id) as Hne by apply state_key_ne_user.
  assert (db r.2 !! state_key request = None ∧
          ∃ rest,
            emitted m r.2
            = prelude request (db m) id (now_isoformat w)
              ++ exchange_calls w (query_code request) ++ rest
            ∧ Forall (λ e, touches (state_key request) e = false) rest)
    as [Hgone (rest & Hlog & Hrest)].
  { subst r.
    destruct (callback_resolved_cases w request m srec id Ha Hc Hs Hid)
      as [[_ ->]|(email & _ & [[_ ->]|(k & ks & Hk & _ & ->)])];
      cbn [snd db]; rewrite <- ?app_assoc, emitted_app.
    - split; [apply lookup_delete_eq|]. eexists. split; [done|].
      repeat constructor.
    - split.
      + unfold linked_db. rewrite lookup_insert_ne by done. apply lookup_delete_eq.
      + eexists. split; [done|].
        repeat constructor; simpl; by rewrite bool_decide_eq_false_2.
    - destruct (first_pool_key_Some _ _ Hk) as [Hpk _].
      assert (k ≠ state_key request) by (by apply pool_key_ne_state).
      assert (user_key id ≠ state_key request) by done.
      split.
      + unfold linked_db.
        rewrite lookup_insert_ne, lookup_delete_ne, lookup_insert_ne by done.
        apply lookup_delete_eq.
      + eexists. split; [done|].
        repeat first
          [ apply Forall_nil_2
          | apply Forall_app; split; [by apply untouched_delivery|]
          | apply Forall_cons; split;
            [cbn [touches]; by rewrite ?bool_decide_eq_false_2|] ]. }
  split; [|split; [done|]].
  - exists (tail (exchange_calls w (query_code request)) ++ rest).
    rewrite Hlog. split; [done|].
    apply Forall_app. split; [|done].
    pose proof (untouched_calls (state_key request) w (query_code request)) as Hc'.
    unfold exchange_calls in *. by apply Forall_cons in Hc' as [_ Hc'].
  - intros w' request' Hsame.
    apply unknown_state_run. by rewrite Hsame.
Qed.

(** *** Linking and dispensing *)

Lemma pool_lookup_key d k : startswith k "key:" = true → pool d !! k = d !! k.
Proof.
  intros Hk. unfold pool. destruct (d !! k) as [v|] eqn:Hd.
  - by apply map_lookup_filter_Some.
  - apply map_lookup_filter_None. by left.
Qed.

Lemma pool_lookup_Some d k v :
  pool d !! k = Some v ↔ d !! k = Some v ∧ startswith k "key:" = true.
Proof. unfold pool. by rewrite map_lookup_filter_Some. Qed.

Lemma pool_insert_user d id v : pool (<[user_key id := v]> d) = pool d.
Proof.
  unfold pool. apply map_filter_insert_not. intros y. cbn [fst].
  by rewrite user_key_not_pool.
Qed.

Lemma pool_delete_state d request : pool (delete (state_key request) d) = pool d.
Proof.
  unfold pool. apply map_filter_delete_not. intros y _. cbn [fst].
  by rewrite state_key_not_pool.
Qed.

Lemma pool_delete d k : pool (delete k d) = delete k (pool d).
Proof. apply map_filter_delete. Qed.

Lemma pool_resolve d id now : pool (resolve d id now) = pool d.
Proof. unfold resolve. destruct (d !! user_key id); [done|]. apply pool_insert_user. Qed.

Lemma pool_linked request d id now email :
  pool (linked_db request d id now email) = pool d.
Proof.
  unfold linked_db. by rewrite pool_insert_user, pool_delete_state, pool_resolve.
Qed.

(** The fields of a new record. *)
Lemma new_account_fields id now :
  new_account id now !! "discord_id" = Some id
  ∧ new_account id now !! "email" = Some None_
  ∧ new_account id now !! "first_linked_at" = Some (Str now)
  ∧ new_account id now !! "dispensed_key" = None
  ∧ new_account id now !! "last_dispensed_at" = None.
Proof.
  unfold new_account.
  repeat split;
    repeat first
      [ rewrite lookup_insert_eq
      | rewrite lookup_insert_ne by done
      | rewrite lookup_singleton_eq
      | rewrite lookup_singleton_ne by done ];
    done.
Qed.

(** The fields of the account record after the resolution are those of the
    record before it, when there was one. *)
Lemma account_field d id now f :
  f = "dispensed_key" ∨ f = "last_dispensed_at" →
  account d id now !! f = field d (user_key id) f.
Proof.
  unfold account, field. destruct (d !! user_key id) as [rec|]; simpl; [done|].
  destruct (new_account_fields id now) as (_ & _ & _ & Hk & Hl).
  by intros [->| ->].
Qed.

(** What a run does once the identity exchange has succeeded. *)
Lemma linked_run w request m srec id email :
  allowed w request m = true →
  complete request = true →
  db m !! state_key request = Some srec →
  srec !! "user_id" = Some id →
  ExchangeSucceeds w email →
  let r := oauth_callback items_order w request m in
  let now := now_isoformat w in
  r.1 = Return (RedirectResponse "https://skyspoofer.com")
  ∧ field (db r.2) (user_key id) "email" = Some email
  ∧ (pool (db m) = ∅ →
     db r.2 = linked_db request (db m) id now email
     ∧ field (db r.2) (user_key id) "dispensed_key"
       = field (db m) (user_key id) "dispensed_key"
     ∧ field (db r.2) (user_key id) "last_dispensed_at"
       = field (db m) (user_key id) "last_dispensed_at"
     ∧ pool (db r.2) = pool (db m)
     ∧ List.filter is_dispense (emitted m r.2) = [])
  ∧ (pool (db m) ≠ ∅ →
     ∃ k v key_str,
       pool (db m) !! k = Some v
       ∧ split "key:" k !! 1%nat = Some key_str
       ∧ pool (db r.2) = delete k (pool (db m))
       ∧ size (pool (db m)) = S (size (pool (db r.2)))
       ∧ field (db r.2) (user_key id) "dispensed_key" = Some (Str key_str)
       ∧ field (db r.2) (user_key id) "last_dispensed_at" = Some (Str now)).
Proof.
  intros Ha Hc Hs Hid He r now. subst r now.
  destruct (callback_resolved_cases w request m srec id Ha Hc Hs Hid)
    as [[Hf _]|(email' & He' & Hcases)];
    [by destruct (exchange_exclusive w email)|].
  assert (email' = email) as ->.
  { destruct He as (? & ? & ? & _ & _ & Hp & _), He' as (? & ? & ? & _ & _ & Hp' & _).
    congruence. }
  cbn zeta in Hcases.
  destruct Hcases as [[Hnone ->]|(k & ks & Hk & Hks & ->)]; cbn [fst snd db].
  - split; [done|]. split; [|split].
    + unfold field, linked_db. rewrite lookup_insert_eq. simpl.
      by rewrite lookup_insert_eq.
    + intros _. split; [done|].
      unfold field at 1 3, linked_db. rewrite lookup_insert_eq. simpl.
      rewrite !lookup_insert_ne by done.
      rewrite !account_field by auto. split; [done|]. split; [done|].
      split; [apply pool_linked|].
      rewrite <- !app_assoc, emitted_app, !List.filter_app.
      unfold prelude, resolution, exchange_calls. cbn [List.filter is_dispense].
      rewrite state_key_not_pool.
      destruct (db m !! user_key id); destruct (token_resp w) as [|st [tok|]];
        simpl; try done; by destruct (bool_decide _).
    + intros Hpool. exfalso. apply Hpool.
      rewrite <- (pool_linked request (db m) id (now_isoformat w) email).
      by apply pool_empty_first.
  - destruct (first_pool_key_Some _ _ Hk) as [Hpk [v Hv]].
    assert (pool (db m) !! k = Some v) as Hin.
    { rewrite <- (pool_linked request (db m) id (now_isoformat w) email).
      by rewrite pool_lookup_key. }
    split; [done|]. split; [|split].
    + unfold field. rewrite lookup_insert_eq. simpl. unfold annotate.
      rewrite !lookup_insert_ne by done. by rewrite lookup_insert_eq.
    + intros Hempty. rewrite Hempty in Hin. by rewrite lookup_empty in Hin.
    + intros _. exists k, v, ks. split; [done|]. split; [done|].
      rewrite pool_insert_user, pool_delete, pool_linked.
      split; [done|]. split; [|split].
      * rewrite map_size_delete, Hin.
        assert (size (pool (db m)) ≠ 0%nat) as Hsize.
        { intros Hz%map_size_empty_iff. rewrite Hz in Hin.
          by rewrite lookup_empty in Hin. }
        simpl. lia.
      * unfold field. rewrite lookup_insert_eq. simpl. unfold annotate.
        rewrite lookup_insert_ne by done. by rewrite lookup_insert_eq.
      * unfold field. rewrite lookup_insert_eq. simpl. unfold annotate.
        by rewrite lookup_insert_eq.
Qed.

(** [C9]: a request that passes the rate limiter, the validation of the
    state and the identity exchange is answered by the redirect, and its
    account has the email of the exchange. With no pool entry in the store,
    the run ends after the link: the dispensed key and its time are as they
    were (absent for a new account), the pool is as it was, and no event of a
    dispense happens. With a pool entry, exactly one entry leaves the pool,
    and its key string and the time are recorded on the account. *)
Theorem link_and_dispense w request m srec id email :
  allowed w request m = true →
  complete request = true →
  db m !! state_key request = Some srec →
  srec !! "user_id" = Some id →
  ExchangeSucceeds w email →
  let r := oauth_callback items_order w request m in
  let now := now_isoformat w in
  r.1 = Return (RedirectResponse "https://skyspoofer.com")
  ∧ field (db r.2) (user_key id) "email" = Some email
  ∧ (pool (db m) = ∅ →
     db r.2 = linked_db request (db m) id now email
     ∧ field (db r.2) (user_key id) "dispensed_key"
       = field (db m) (user_key id) "dispensed_key"
     ∧ field (db r.2) (user_key id) "last_dispensed_at"
       = field (db m) (user_key id) "last_dispensed_at"
     ∧ pool (db r.2) = pool (db m)
     ∧ List.filter is_dispense (emitted m r.2) = [])
  ∧ (pool (db m) ≠ ∅ →
     ∃ k v key_str,
       pool (db m) !! k = Some v
       ∧ split "key:" k !! 1%nat = Some key_str
       ∧ pool (db r.2) = delete k (pool (db m))
       ∧ size (pool (db m)) = S (size (pool (db r.2)))
       ∧ field (db r.2) (user_key id) "dispensed_key" = Some (Str key_str)
       ∧ field (db r.2) (user_key id) "last_dispensed_at" = Some (Str now)).
Proof. apply linked_run. Qed.

(** [C10]: for a pool entry stored under ["key:"] followed by [s], the key
    string that the dispense records, sends and notifies is [s] exactly when
    [s] has no ["key:"] in it; otherwise it is the text of [s] before its
    leftmost ["key:"]. In both cases the whole entry leaves the pool. *)
Theorem dispensed_key_string (s : string) :
  let k := "key:" +:+ s in
  ∃ key_str,
    split "key:" k !! 1%nat = Some key_str
    ∧ (key_str = s ↔ ¬ occurs "key:" s)
    ∧ (occurs "key:" s →
       ∃ after, s = key_str +:+ "key:" +:+ after
                ∧ ∀ before' after', s = before' +:+ "key:" +:+ after' →
                    (String.length key_str ≤ String.length before')%nat)
    ∧ ∀ w id m v rec,
        db m !! k = Some v →
        db m !! user_key id = Some rec →
        let r := dispense w id (user_key id) k m in
        r.1 = Return tt
        ∧ db r.2 !! k = None
        ∧ pool (db r.2) = delete k (pool (db m))
        ∧ field (db r.2) (user_key id) "dispensed_key" = Some (Str key_str)
        ∧ emitted m r.2
          = [DbDel k; DbGet (user_key id);
             DbSet (user_key id) (annotate rec key_str (now_isoformat w))]
            ++ delivery w id key_str
            ++ [Notify (KeyDispensed id key_str)].
Proof.
  intros k. exists (second_part "key:" s).
  assert (split "key:" k !! 1%nat = Some (second_part "key:" s)) as Hsplit
    by (by apply split_prefixed).
  split; [done|]. split; [|split].
  - unfold second_part. destruct (partition "key:" s) as [[b a]|] eqn:Hp.
    + split.
      * intros ->. apply partition_Some, (f_equal String.length) in Hp.
        rewrite !length_append in Hp. simpl in Hp. lia.
      * intros Hno. exfalso. apply Hno. exists b, a. by apply partition_Some.
    + split; [|done]. intros _. by apply partition_None.
  - intros Hocc. unfold second_part.
    destruct (partition "key:" s) as [[b a]|] eqn:Hp.
    + exists a. split; [by apply partition_Some|].
      by apply (partition_leftmost _ _ _ _ Hp).
    + by apply partition_None in Hp.
  - intros w id m v rec Hv Hrec r. subst r.
    assert (k ≠ user_key id) as Hne
      by (apply pool_key_ne_user; apply startswith_app).
    rewrite (dispense_run w id k _ m v rec Hsplit Hv Hrec Hne).
    cbn [fst snd db]. rewrite emitted_app. split; [done|]. split; [|split; [|split]].
    + rewrite lookup_insert_ne by done. apply lookup_delete_eq.
    + by rewrite pool_insert_user, pool_delete.
    + unfold field. rewrite lookup_insert_eq. simpl. unfold annotate.
      rewrite lookup_insert_ne by done. by rewrite lookup_insert_eq.
    + done.
Qed.

(** *** Sequences of requests *)

Lemma user_key_not_state id : startswith (user_key id) "state:" = false.
Proof. unfold user_key. rewrite append_cons. reflexivity. Qed.

Lemma serve_cons w request rest m :
  serve items_order ((w, request) :: rest) m
  = ((oauth_callback items_order w request m).1
       :: (serve items_order rest (oauth_callback items_order w request m).2).1,
     (serve items_order rest (oauth_callback items_order w request m).2).2).
Proof. reflexivity. Qed.

(** What the three writes keep, a sequence of requests keeps. *)
Lemma serve_preserves (P : Rec → Prop) :
  (∀ rec rec', record_step rec rec' → P rec → P rec') →
  ∀ reqs m k rec,
    db m !! k = Some rec →
    startswith k "key:" = false →
    startswith k "state:" = false →
    P rec →
    ∃ rec', db (serve items_order reqs m).2 !! k = Some rec' ∧ P rec'.
Proof.
  intros Hstep reqs. induction reqs as [|[w request] reqs IH];
    intros m k rec Hrec Hpool Hstate HP.
  - exists rec. done.
  - rewrite serve_cons. cbn [snd].
    destruct (callback_record_step w request m k rec Hrec Hpool Hstate)
      as (rec1 & Hrec1 & Hs1).
    apply (IH _ _ rec1); eauto.
Qed.

Lemma record_step_first_linked_at rec rec' :
  record_step rec rec' → rec' !! "first_linked_at" = rec !! "first_linked_at".
Proof.
  intros [| |]; unfold annotate; by rewrite ?lookup_insert_ne by done.
Qed.

Lemma record_step_dispensed_key rec rec' :
  record_step rec rec' →
  is_Some (rec !! "dispensed_key") → is_Some (rec' !! "dispensed_key").
Proof.
  intros [| |]; unfold annotate; rewrite ?lookup_insert_ne by done; [done..|].
  rewrite lookup_insert_eq. eauto.
Qed.

(** [C4]: across any sequence of callbacks, the [first_linked_at] of an
    existing account record keeps its value; the callback that creates the
    record writes the time of that callback in it; and neither the email
    update nor the annotation of a dispensed key changes it. *)
Theorem first_linked_at_written_once :
  (∀ reqs m id rec,
     db m !! user_key id = Some rec →
     ∃ rec', db (serve items_order reqs m).2 !! user_key id = Some rec'
             ∧ rec' !! "first_linked_at" = rec !! "first_linked_at")
  ∧ (∀ w request m srec id,
       allowed w request m = true →
       complete request = true →
       db m !! state_key request = Some srec →
       srec !! "user_id" = Some id →
       db m !! user_key id = None →
       field (db (oauth_callback items_order w request m).2) (user_key id)
         "first_linked_at"
       = Some (Str (now_isoformat w)))
  ∧ (∀ (rec : Rec) email key_str now,
       (<["email" := email]> rec) !! "first_linked_at" = rec !! "first_linked_at"
       ∧ annotate rec key_str now !! "first_linked_at" = rec !! "first_linked_at").
Proof.
  split; [|split].
  - intros reqs m id rec Hrec.
    apply (serve_preserves
             (λ rec', rec' !! "first_linked_at" = rec !! "first_linked_at"))
      with (rec := rec);
      [|done|apply user_key_not_pool|apply user_key_not_state|done].
    intros rec1 rec2 Hstep <-. by apply record_step_first_linked_at.
  - intros w request m srec id Ha Hc Hs Hid Hnew.
    destruct (new_account_fields id (now_isoformat w)) as (_ & _ & Hfirst & _).
    destruct (callback_resolved_cases w request m srec id Ha Hc Hs Hid)
      as [[_ ->]|(email & _ & [[_ ->]|(k & ks & _ & _ & ->)])];
      cbn [snd db]; unfold field, linked_db, annotate, account;
      rewrite ?consumed_lookup_user, ?lookup_insert_eq; unfold account;
      rewrite Hnew; simpl; by rewrite ?lookup_insert_ne by done.
  - intros rec email key_str now. unfold annotate.
    by rewrite !lookup_insert_ne by done.
Qed.

Lemma callback_pool_size w request m :
  (size (pool (db m)) ≤ S (size (pool (db (oauth_callback items_order w request m).2))))%nat.
Proof.
  destruct (callback_cases w request m)
    as [->|(srec & id & Hs & Hid & [->|(email & He & [->|(k' & ks & Hk' & Hks & ->)])])];
    rewrite ?pool_insert_user, ?pool_delete_state, ?pool_resolve, ?pool_delete,
      ?pool_linked; try lia.
  rewrite map_size_delete. destruct (pool (db m) !! k'); simpl; lia.
Qed.

(** [C1], as amended: across any sequence of callbacks, a [dispensed_key]
    that is populated stays populated, so the field goes from empty to
    populated at most once; a callback takes at most one entry out of the
    pool; and a callback of an identity that is already linked, when the
    exchange succeeds and the pool is not empty, takes an entry out of the
    pool and records its key string as the [dispensed_key] of the account, in
    the place of the one it held. *)
Theorem dispensed_key_stays_populated :
  (∀ reqs m id rec,
     db m !! user_key id = Some rec →
     is_Some (rec !! "dispensed_key") →
     ∃ rec', db (serve items_order reqs m).2 !! user_key id = Some rec'
             ∧ is_Some (rec' !! "dispensed_key"))
  ∧ (∀ w request m,
       (size (pool (db m))
        ≤ S (size (pool (db (oauth_callback items_order w request m).2))))%nat)
  ∧ (∀ w request m srec id email rec,
       allowed w request m = true →
       complete request = true →
       db m !! state_key request = Some srec →
       srec !! "user_id" = Some id →
       ExchangeSucceeds w email →
       db m !! user_key id = Some rec →
       pool (db m) ≠ ∅ →
       let r := oauth_callback items_order w request m in
       ∃ k v key_str,
         pool (db m) !! k = Some v
         ∧ split "key:" k !! 1%nat = Some key_str
         ∧ pool (db r.2) = delete k (pool (db m))
         ∧ field (db r.2) (user_key id) "dispensed_key" = Some (Str key_str)).
Proof.
  split; [|split].
  - intros reqs m id rec Hrec Hkey.
    apply (serve_preserves (λ rec', is_Some (rec' !! "dispensed_key")) )
      with (rec := rec);
      [|done|apply user_key_not_pool|apply user_key_not_state|done].
    intros rec1 rec2 Hstep. by apply record_step_dispensed_key.
  - apply callback_pool_size.
  - intros w request m srec id email rec Ha Hc Hs Hid He Hrec Hpool r.
    destruct (linked_run w request m srec id email Ha Hc Hs Hid He)
      as (_ & _ & _ & Hsome).
    destruct (Hsome Hpool) as (k & v & ks & Hin & Hks & Hp & _ & Hkey & _).
    exists k, v, ks. done.
Qed.

(** The notice of a failed delivery is sent when the channel does not open,
    and when the message gets no response; the status of the response to
    the message is not looked at. *)
Lemma delivery_failure_notice w id key_str :
  List.filter is_delivery_failure (delivery w id key_str)
  = match dm_resp w with
    | Reply status_code (Some cid) =>
        if bool_decide (error_status status_code)
        then [Notify (DmDeliveryFailed id key_str)]
        else match message_resp w with
             | NoResponse => [Notify (DmDeliveryFailed id key_str)]
             | Reply _ _ => []
             end
    | _ => [Notify (DmDeliveryFailed id key_str)]
    end.
Proof.
  unfold delivery. destruct (dm_resp w) as [|st [cid|]]; simpl;
    try destruct (bool_decide _); try done.
  by destruct (message_resp w).
Qed.

End Runs.

(** *** Sample runs *)

Import Examples.

Lemma world_ok_succeeds : ExchangeSucceeds world_ok (Str "a@b.c").
Proof.
  exists 200, "tok", 200. unfold error_status.
  repeat split; try reflexivity; lia.
Qed.

Lemma world_later_succeeds : ExchangeSucceeds world_later (Str "a@b.c").
Proof.
  exists 200, "tok", 200. unfold error_status.
  repeat split; try reflexivity; lia.
Qed.

(** Six requests in a row from one address with a state token that the
    store does not hold: the sixth is answered 429, not 400. *)
Lemma unknown_state_rate_limited :
  db mem_empty !! state_key request_unknown = None
  ∧ status_of <$> (serve map_to_list (replicate 6 (world_ok, request_unknown)) mem_empty).1
    = [400; 400; 400; 400; 400; 429].
Proof. split; vm_compute; reflexivity. Qed.

Lemma unknown_state_rejected_witness :
  let r := oauth_callback map_to_list world_ok request_unknown mem_dry in
  db r.2 = db mem_dry ∧ status_of r.1 = 400.
Proof.
  assert (db mem_dry !! state_key request_unknown = None) as Hs
    by (vm_compute; reflexivity).
  destruct (unknown_state_rejected map_to_list world_ok request_unknown mem_dry Hs)
    as (Hdb & H400 & _).
  split; [exact Hdb|]. apply H400. vm_compute. reflexivity.
Defined.

Lemma exchange_failure_500_witness :
  let r := oauth_callback map_to_list world_no_email request1 mem2 in
  status_of r.1 = 500
  ∧ field (db r.2) "user:42" "email" = Some None_
  ∧ field (db r.2) "user:42" "dispensed_key" = None.
Proof.
  assert (allowed world_no_email request1 mem2 = true) as Ha by (vm_compute; reflexivity).
  assert (complete request1 = true) as Hc by (vm_compute; reflexivity).
  assert (db mem2 !! state_key request1 = Some state1) as Hs by (vm_compute; reflexivity).
  assert (state1 !! "user_id" = Some (Str "42")) as Hid by (vm_compute; reflexivity).
  assert (ExchangeFails world_no_email) as Hf
    by (apply (profile_without_email world_no_email 200 None_); reflexivity).
  assert (db mem2 !! user_key (Str "42") = None) as Hnew by (vm_compute; reflexivity).
  destruct (exchange_failure_500 map_to_list world_no_email request1 mem2 state1
              (Str "42") Ha Hc Hs Hid Hf)
    as (_ & H500 & _ & _ & _ & _ & Hfields).
  destruct (Hfields Hnew) as (Hemail & Hkey & _).
  split; [exact H500|]. split; [exact Hemail|exact Hkey].
Defined.

(** The account record is looked up and created while the state entry is
    still in the store: its deletion is the fifth access. *)
Lemma account_resolved_before_deletion :
  take 5 (emitted mem2 (oauth_callback map_to_list world_ok request1 mem2).2)
  = [DbContains "state:s1"; DbGet "state:s1"; DbContains "user:42";
     DbSet "user:42" (new_account (Str "42") (now_isoformat world_ok));
     DbDel "state:s1"].
Proof. vm_compute. reflexivity. Qed.

Lemma state_consumed_after_resolution_witness :
  let r := oauth_callback map_to_list world_ok request1 mem2 in
  let r' := oauth_callback map_to_list world_later request1 r.2 in
  db r.2 !! state_key request1 = None
  ∧ db r'.2 = db r.2
  ∧ status_of r'.1 = 400.
Proof.
  assert (allowed world_ok request1 mem2 = true) as Ha by (vm_compute; reflexivity).
  assert (complete request1 = true) as Hc by (vm_compute; reflexivity).
  assert (db mem2 !! state_key request1 = Some state1) as Hs by (vm_compute; reflexivity).
  assert (state1 !! "user_id" = Some (Str "42")) as Hid by (vm_compute; reflexivity).
  destruct (state_consumed_after_resolution map_to_list (λ d, reflexivity _)
              world_ok request1 mem2 state1 (Str "42") Ha Hc Hs Hid)
    as (_ & Hgone & Hreplay).
  destruct (Hreplay world_later request1 eq_refl) as (Hdb & H400 & _).
  split; [exact Hgone|]. split; [exact Hdb|]. apply H400. vm_compute. reflexivity.
Defined.

Lemma link_and_dispense_witness :
  let r := oauth_callback map_to_list world_ok request1 mem_dry in
  r.1 = Return (RedirectResponse "https://skyspoofer.com")
  ∧ field (db r.2) "user:42" "email" = Some (Str "a@b.c")
  ∧ field (db r.2) "user:42" "dispensed_key" = field (db mem_dry) "user:42" "dispensed_key"
  ∧ pool (db r.2) = pool (db mem_dry).
Proof.
  assert (allowed world_ok request1 mem_dry = true) as Ha by (vm_compute; reflexivity).
  assert (complete request1 = true) as Hc by (vm_compute; reflexivity).
  assert (db mem_dry !! state_key request1 = Some state1) as Hs
    by (vm_compute; reflexivity).
  assert (state1 !! "user_id" = Some (Str "42")) as Hid by (vm_compute; reflexivity).
  assert (pool (db mem_dry) = ∅) as Hdry by (vm_compute; reflexivity).
  destruct (link_and_dispense map_to_list (λ d, reflexivity _)
              world_ok request1 mem_dry state1 (Str "42") (Str "a@b.c")
              Ha Hc Hs Hid world_ok_succeeds)
    as (Hr & Hemail & Hempty & _).
  destruct (Hempty Hdry) as (_ & Hkey & _ & Hpool & _).
  split; [exact Hr|]. split; [exact Hemail|]. split; [exact Hkey|exact Hpool].
Defined.

Lemma dispensed_key_string_witness :
  ∃ key_str,
    split "key:" ("key:" +:+ "AAAkey:BBB") !! 1%nat = Some key_str
    ∧ ∃ after, "AAAkey:BBB" = key_str +:+ "key:" +:+ after.
Proof.
  destruct (dispensed_key_string "AAAkey:BBB") as (ks & Hks & _ & Hcut & _).
  exists ks. split; [exact Hks|].
  destruct Hcut as (after & Heq & _); [exists "AAA", "BBB"; reflexivity|].
  exists after. exact Heq.
Defined.

Lemma first_linked_at_written_once_witness :
  ∃ rec', db (serve map_to_list [(world_later, request2)]
                (oauth_callback map_to_list world_ok request1 mem2).2).2
            !! user_key (Str "42") = Some rec'
          ∧ rec' !! "first_linked_at" = Some (Str (now_isoformat world_ok)).
Proof.
  assert (db (oauth_callback map_to_list world_ok request1 mem2).2
            !! user_key (Str "42") = Some account1) as Hrec
    by (vm_compute; reflexivity).
  destruct (first_linked_at_written_once map_to_list (λ d, reflexivity _))
    as (Hkept & _ & _).
  destruct (Hkept [(world_later, request2)] _ _ _ Hrec) as (rec' & Hrec' & Hfirst).
  exists rec'. split; [exact Hrec'|]. rewrite Hfirst. vm_compute. reflexivity.
Defined.

(** The identity 42 links twice, with two keys in the pool: the second
    callback gives it a second key. *)
Lemma second_key_on_relink :
  let m1 := (oauth_callback map_to_list world_ok request1 mem2).2 in
  let m2 := (oauth_callback map_to_list world_later request2 m1).2 in
  field (db m1) "user:42" "dispensed_key" = Some (Str "AAA")
  ∧ field (db m2) "user:42" "dispensed_key" = Some (Str "BBB")
  ∧ size (pool (db mem2)) = 2%nat
  ∧ size (pool (db m1)) = 1%nat
  ∧ size (pool (db m2)) = 0%nat.
Proof. vm_compute. repeat split; reflexivity. Qed.

Lemma dispensed_key_stays_populated_witness :
  ∃ rec', db (serve map_to_list [(world_later, request2)]
                (oauth_callback map_to_list world_ok request1 mem2).2).2
            !! user_key (Str "42") = Some rec'
          ∧ is_Some (rec' !! "dispensed_key").
Proof.
  assert (db (oauth_callback map_to_list world_ok request1 mem2).2
            !! user_key (Str "42") = Some account1) as Hrec
    by (vm_compute; reflexivity).
  assert (is_Some (account1 !! "dispensed_key")) as Hkey
    by (exists (Str "AAA"); vm_compute; reflexivity).
  destruct (dispensed_key_stays_populated map_to_list (λ d, reflexivity _))
    as (Hkept & _ & _).
  exact (Hkept [(world_later, request2)] _ _ _ Hrec Hkey).
Defined.

(** [C8], where the code departs from it: the channel opens and the message
    is refused with a 403. The key is dispensed and recorded, the message
    is attempted, the dispense is notified and the redirect is returned, and
    no notice of a failed delivery is sent. *)
Theorem refused_message_unreported :
  let r := oauth_callback map_to_list world_message_refused request1 mem2 in
  r.1 = Return (RedirectResponse "https://skyspoofer.com")
  ∧ field (db r.2) "user:42" "dispensed_key" = Some (Str "AAA")
  ∧ db r.2 !! "key:AAA" = None
  ∧ List.filter is_dispense (emitted mem2 r.2)
    = [DbDel "key:AAA"; DmOpen (Str "42"); DmSend (Str "777") "AAA";
       Notify (KeyDispensed (Str "42") "AAA")]
  ∧ List.filter is_delivery_failure (emitted mem2 r.2) = [].
Proof. vm_compute. repeat split; reflexivity. Qed.

End HandlerFacts.

(** ** More on the rate limiter *)

Module RateLimitMore.
Import RateLimit RateLimitFacts Outcomes.

#[local] Arguments record_ip : simpl never.
#[local] Arguments window : simpl never.

Lemma checks_other ip ip' times : ∀ m,
  ip ≠ ip' → window ip' (checks ip times m).2 = window ip' m.
Proof.
  induction times as [|now rest IH]; intros m Hne; [done|].
  rewrite checks_cons. cbn [snd]. rewrite IH by done. by apply record_ip_other.
Qed.

(** The checks of one address leave the window of every other address as
    it was, and so do not change the answer that the other address gets. *)
Theorem checks_independent (ip ip' : string) (times : list Z) (now : Z)
    (m : gmap string (list Z)) :
  ip ≠ ip' →
  window ip' (checks ip times m).2 = window ip' m
  ∧ (record_ip now ip' (checks ip times m).2).1 = (record_ip now ip' m).1.
Proof.
  intros Hne. split; [by apply checks_other|].
  by rewrite !record_ip_flag, checks_other.
Qed.

Lemma checks_independent_witness :
  (record_ip 54000000 "198.51.100.9" (checks "203.0.113.7" burst7 ∅).2).1 = false.
Proof.
  destruct (checks_independent "203.0.113.7" "198.51.100.9" burst7 54000000 ∅)
    as [_ Hflag]; [vm_compute; discriminate|].
  rewrite Hflag. vm_compute. reflexivity.
Defined.

Lemma filter_recent_Forall (f : Z → bool) l :
  Forall (λ t, f t = true) (List.filter f l).
Proof.
  induction l as [|a l IH]; simpl; [constructor|].
  destruct (f a) eqn:Ha; [by constructor|done].
Qed.

Lemma filter_In_old (f : Z → bool) l : Forall (λ t, t ∈ l) (List.filter f l).
Proof.
  apply Forall_forall. intros t Ht.
  apply list_elem_of_In, List.filter_In in Ht as [Ht _]. by apply list_elem_of_In.
Qed.

Lemma filter_sorted (f : Z → bool) l :
  StronglySorted Z.le l → StronglySorted Z.le (List.filter f l).
Proof.
  induction l as [|a l IH]; simpl; [done|].
  intros [Ha Hl]%StronglySorted_cons. destruct (f a); [|by apply IH].
  apply StronglySorted_cons. split; [|by apply IH].
  apply Forall_forall. intros t Ht. rewrite Forall_forall in Ha. apply Ha.
  pose proof (filter_In_old f l) as Hold. rewrite Forall_forall in Hold. by apply Hold.
Qed.

(** Pruning keeps a sorted history sorted, also with the readings to come. *)
Lemma prune_sorted (f : Z → bool) l now later :
  StronglySorted Z.le (l ++ now :: later) →
  StronglySorted Z.le ((List.filter f l ++ [now]) ++ later).
Proof.
  rewrite <- app_assoc. simpl. rewrite !StronglySorted_app.
  intros (Hcross & Hl & Hlater). split; [|split; [by apply filter_sorted|done]].
  intros t1 t2 Ht1 Ht2. apply Hcross; [|done].
  pose proof (filter_In_old f l) as Hold. rewrite Forall_forall in Hold. by apply Hold.
Qed.

Lemma checks_snd_cons ip now rest m :
  (checks ip (now :: rest) m).2 = (checks ip rest (record_ip now ip m).2).2.
Proof. reflexivity. Qed.

(** With a clock that does not go backwards, the stored window of an
    address is, after any sequence of checks, a sorted list that ends with
    the last reading and whose timestamps are all less than 60 s
    (60,000,000 microseconds) older than that reading: what is 60 s old or
    more at a check is gone after it. *)
Theorem window_pruned (ip : string) (times : list Z) (now : Z)
    (m : gmap string (list Z)) :
  StronglySorted Z.le (window ip m ++ times ++ [now]) →
  let stored := window ip (checks ip (times ++ [now]) m).2 in
  last stored = Some now
  ∧ StronglySorted Z.le stored
  ∧ Forall (λ t, 0 ≤ now - t < 60000000) stored.
Proof.
  revert m. induction times as [|a times IH]; intros m Hsorted stored; subst stored.
  - simpl app. rewrite checks_snd_cons. cbn [checks snd].
    rewrite record_ip_window. simpl in Hsorted.
    split; [apply last_snoc|]. split.
    + rewrite <- (app_nil_r (_ ++ [now])). by apply prune_sorted.
    + apply StronglySorted_app in Hsorted as (Hcross & _ & _).
      apply Forall_app. split.
      * apply Forall_forall. intros t Ht. split.
        -- assert (t ≤ now); [|lia]. apply Hcross; [|by left].
           pose proof (filter_In_old (recent now) (window ip m)) as Hold.
           rewrite Forall_forall in Hold. by apply Hold.
        -- pose proof (filter_recent_Forall (recent now) (window ip m)) as Hrec.
           rewrite Forall_forall in Hrec. by apply recent_lt, Hrec.
      * constructor; [lia|constructor].
  - simpl app. rewrite checks_snd_cons. apply IH.
    rewrite record_ip_window. by apply prune_sorted.
Qed.

(** The burst of seven calls followed by a call at 70 s. *)
Lemma window_pruned_witness :
  Forall (λ t, 0 ≤ 70000000 - t < 60000000)
    (window "203.0.113.7" (checks "203.0.113.7" (burst7 ++ [70000000]) ∅).2).
Proof.
  apply (window_pruned "203.0.113.7" burst7 70000000 ∅).
  change (window "203.0.113.7" ∅) with (@nil Z). unfold burst7. simpl.
  repeat (apply StronglySorted_cons; split; [repeat constructor; lia|]).
  constructor.
Defined.

Lemma filter_sublist (f : Z → bool) l1 l2 :
  sublist l1 l2 → sublist (List.filter f l1) (List.filter f l2).
Proof.
  induction 1 as [|x l1 l2 _ IH|x l1 l2 _ IH]; simpl.
  - constructor.
  - destruct (f x); [by constructor|done].
  - destruct (f x); [by constructor|done].
Qed.

Lemma steady_tail_recent start gap j :
  0 ≤ gap → 5 * gap < RATE_PERIOD * 1000000 →
  forallb (recent (pace start gap j))
    (pace start gap <$> seq (j - min j 5) (min j 5)) = true.
Proof.
  intros Hgap Hfast. apply forallb_forall. intros t Ht.
  apply List.in_map_iff in Ht as (i & <- & Hi). apply in_seq in Hi.
  unfold recent, total_seconds_lt, pace. apply Z.ltb_lt.
  assert (Z.of_nat j - Z.of_nat i ≤ 5) by lia.
  assert (0 ≤ Z.of_nat j - Z.of_nat i) by lia.
  nia.
Qed.

Lemma steady_tail_next start gap j :
  sublist (pace start gap <$> seq (S j - min (S j) 5) (min (S j) 5))
    ((pace start gap <$> seq (j - min j 5) (min j 5)) ++ [pace start gap j]).
Proof.
  destruct (decide (j < 5)%nat) as [Hj|Hj].
  - replace (min (S j) 5) with (S j) by lia. replace (min j 5) with j by lia.
    replace (S j - S j)%nat with 0%nat by lia. replace (j - j)%nat with 0%nat by lia.
    rewrite seq_S, fmap_app. done.
  - replace (min (S j) 5) with 5%nat by lia. replace (min j 5) with 5%nat by lia.
    assert (seq (S j - 5) 5 = seq (S (j - 5)) 4 ++ [j]) as ->.
    { replace (S j - 5)%nat with (S (j - 5)) by lia.
      rewrite (seq_S 4 (S (j - 5))). do 2 f_equal. lia. }
    assert (seq (j - 5) 5 = (j - 5)%nat :: seq (S (j - 5)) 4) as -> by reflexivity.
    rewrite fmap_app, fmap_cons. apply sublist_cons. done.
Qed.

Lemma steady_checks ip start gap :
  0 ≤ gap → 5 * gap < RATE_PERIOD * 1000000 →
  ∀ n j m k,
    (length (window ip m) ≤ j)%nat →
    sublist (pace start gap <$> seq (j - min j 5) (min j 5)) (window ip m) →
    (k < n)%nat →
    (checks ip (pace start gap <$> seq j n) m).1 !! k
    = Some (bool_decide (RATE_LIMIT ≤ j + k)%nat).
Proof.
  intros Hgap Hfast n. induction n as [|n IH]; intros j m k Hlen Hsub Hk; [lia|].
  cbn [seq fmap list_fmap]. rewrite checks_cons. cbn [fst].
  pose proof (filter_sublist (recent (pace start gap j)) _ _ Hsub) as Hkept.
  rewrite (filter_all _ _ (steady_tail_recent start gap j Hgap Hfast)) in Hkept.
  pose proof (sublist_length _ _ Hkept) as Hmin.
  rewrite length_fmap, length_seq in Hmin.
  pose proof (filter_length_le' (recent (pace start gap j)) (window ip m)) as Hmax.
  destruct k as [|k]; cbn [lookup list_lookup].
  - rewrite record_ip_flag, length_app. cbn [length]. f_equal.
    apply bool_decide_ext. unfold RATE_LIMIT. lia.
  - rewrite (IH (S j)).
    + f_equal. apply bool_decide_ext. lia.
    + rewrite record_ip_window, length_app. cbn [length]. lia.
    + rewrite record_ip_window. etrans; [apply steady_tail_next|].
      by apply sublist_app.
    + lia.
Qed.

(** A client that calls at a steady pace of less than a fifth of the
    period between two calls is let in five times and rejected at every call
    after that, however long it goes on: the rejected calls are recorded and
    keep the window full. *)
Theorem steady_polling_blocked (ip : string) (start gap : Z) (n k : nat)
    (m : gmap string (list Z)) :
  window ip m = [] →
  0 ≤ gap →
  5 * gap < RATE_PERIOD * 1000000 →
  (k < n)%nat →
  (checks ip (steady start gap n) m).1 !! k = Some (bool_decide (RATE_LIMIT ≤ k)%nat).
Proof.
  intros Hempty Hgap Hfast Hk. unfold steady.
  rewrite (steady_checks ip start gap Hgap Hfast n 0 m k); [done| | |done].
  - rewrite Hempty. simpl. lia.
  - simpl. apply sublist_nil_l.
Qed.

(** A call every ten seconds: the hundredth call, over a quarter of an
    hour after the first, is still rejected. *)
Lemma steady_polling_blocked_witness :
  (checks "203.0.113.7" (steady 0 10000000 100) ∅).1 !! 99%nat = Some true.
Proof.
  rewrite (steady_polling_blocked "203.0.113.7" 0 10000000 100 99 ∅);
    [reflexivity|reflexivity|lia|unfold RATE_PERIOD; lia|lia].
Defined.

End RateLimitMore.

(** ** More on the key strings *)

Module PyMore.
Import Py PyFacts Outcomes.

Lemma append_assoc (a b c : string) : (a +:+ b) +:+ c = a +:+ (b +:+ c).
Proof.
  induction a as [|x a IH]; [reflexivity|].
  rewrite !append_cons. by rewrite IH.
Qed.

Lemma second_part_clean sep s : sep ≠ "" → ¬ occurs sep (second_part sep s).
Proof.
  intros Hsep. assert (0 < String.length sep)%nat by (destruct sep; [done|simpl; lia]).
  unfold second_part. destruct (partition sep s) as [[b a]|] eqn:Hp.
  - intros (b' & a' & ->).
    pose proof (partition_Some _ _ _ _ Hp) as Hs.
    rewrite !append_assoc in Hs.
    pose proof (partition_leftmost _ _ _ _ Hp _ _ Hs) as Hle.
    rewrite !length_append in Hle. lia.
  - by apply partition_None.
Qed.

(** The key string taken from a pool key never has ["key:"] in it. *)
Theorem key_str_clean (k key_str : string) :
  startswith k "key:" = true →
  split "key:" k !! 1%nat = Some key_str →
  ¬ occurs "key:" key_str.
Proof.
  intros [s ->]%startswith_inv. rewrite split_prefixed by done.
  intros [= <-]. by apply second_part_clean.
Qed.

Lemma key_str_clean_witness : ¬ occurs "key:" "AAA".
Proof.
  apply (key_str_clean "key:AAAkey:BBB" "AAA"); vm_compute; reflexivity.
Defined.

Lemma split_fuel_nonempty fuel sep s : split_fuel fuel sep s ≠ [].
Proof.
  destruct fuel; simpl; [done|]. by destruct (partition sep s) as [[??]|].
Qed.

Lemma join_cons sep part rest :
  rest ≠ [] → join sep (part :: rest) = part +:+ sep +:+ join sep rest.
Proof. by destruct rest. Qed.

Lemma join_split_fuel sep s : ∀ fuel, join sep (split_fuel fuel sep s) = s.
Proof.
  intros fuel. revert s. induction fuel as [|fuel IH]; intros s; [done|].
  rewrite split_fuel_S. destruct (partition sep s) as [[b a]|] eqn:Hp; [|done].
  rewrite join_cons by apply split_fuel_nonempty.
  rewrite IH. symmetry. by apply partition_Some.
Qed.

(** Splitting at a separator loses nothing: joining the parts with the
    separator gives the string back, and there is always a first part. *)
Theorem join_split (sep s : string) :
  sep ≠ "" →
  join sep (split sep s) = s ∧ split sep s ≠ [].
Proof.
  intros _. split; [apply join_split_fuel|apply split_fuel_nonempty].
Qed.

Lemma join_split_witness :
  join "key:" (split "key:" "key:AAAkey:BBB") = "key:AAAkey:BBB".
Proof. apply (join_split "key:" "key:AAAkey:BBB"). vm_compute. discriminate. Defined.

End PyMore.

(** ** More on the callback handler *)

Module HandlerMore.
Import Py PyFacts Handler HandlerFacts Examples Outcomes.

Lemma missing_truthy v : missing v ↔ truthy v = false.
Proof.
  unfold missing. split.
  - by intros [-> | ->].
  - destruct v as [|s]; [by left|]. simpl. intros Hs%negb_false_iff.
    apply String.eqb_eq in Hs as ->. by right.
Qed.

Lemma complete_false request :
  complete request = false ↔ missing (query_code request) ∨ missing (query_state request).
Proof. unfold complete. rewrite andb_false_iff, !missing_truthy. done. Qed.

Section Paths.

Variable items_order : Db → list (string * Rec).
Hypothesis items_order_perm : ∀ d : Db, items_order d ≡ₚ map_to_list d.

(** A request that the rate limiter rejects is answered 429 after one
    notice and nothing else: the store is not read, so a state token that
    the request carries stays in the store. *)
Theorem rate_limited_request w request m :
  allowed w request m = false →
  let r := oauth_callback items_order w request m in
  r.1 = Raise (HTTPException 429 "Too many requests")
  ∧ db r.2 = db m
  ∧ emitted m r.2 = [Notify (RateLimitExceeded (client_host request))].
Proof.
  intros Ha r. subst r. rewrite callback_rate_limited by done.
  cbn [fst snd db]. by rewrite emitted_app.
Qed.

(** A request that passes the rate limiter with an absent or empty code
    or state is answered 400 "Missing code or state" after one notice; the
    store is not read. *)
Theorem missing_parameter w request m :
  allowed w request m = true →
  missing (query_code request) ∨ missing (query_state request) →
  let r := oauth_callback items_order w request m in
  r.1 = Raise (HTTPException 400 "Missing code or state")
  ∧ db r.2 = db m
  ∧ emitted m r.2 = [Notify (MissingCodeOrState (client_host request))].
Proof.
  intros Ha Hc%complete_false r. subst r. rewrite callback_incomplete by done.
  cbn [fst snd db]. by rewrite emitted_app.
Qed.

(** A request with a code and a state whose token the store does not
    hold is answered 400 "Invalid state"; the handler only tests the
    membership of the state key and sends one notice. *)
Theorem unknown_state_events w request m :
  allowed w request m = true →
  complete request = true →
  db m !! state_key request = None →
  let r := oauth_callback items_order w request m in
  r.1 = Raise (HTTPException 400 "Invalid state")
  ∧ emitted m r.2
    = [DbContains (state_key request);
       Notify (StateNotFound (query_state request) (client_host request))].
Proof.
  intros Ha Hc Hs r. subst r. rewrite callback_unknown_state by done.
  cbn [fst snd db]. by rewrite emitted_app.
Qed.

(** A state record without [user_id] makes the handler raise [KeyError],
    which leaves it unhandled (a 500 for the client): no notice is sent, and
    the state entry stays in the store. *)
Theorem malformed_state_unhandled w request m srec :
  allowed w request m = true →
  complete request = true →
  db m !! state_key request = Some srec →
  srec !! "user_id" = None →
  let r := oauth_callback items_order w request m in
  r.1 = Raise (KeyError "user_id")
  ∧ status_of r.1 = 500
  ∧ db r.2 = db m
  ∧ List.filter is_notify (emitted m r.2) = [].
Proof.
  intros Ha Hc Hs Hid r. subst r. erewrite callback_malformed_state by done.
  cbn [fst snd db]. by rewrite emitted_app.
Qed.

(** The beginnings of a run. *)
Lemma callback_prefix_cases w request m :
  let r := oauth_callback items_order w request m in
  let ipr := (RateLimit.record_ip (clock w) (client_host request) (ip_requests m)).2 in
  (allowed w request m = false ∧ status_of r.1 = 429
   ∧ db r.2 = db m ∧ ip_requests r.2 = ipr)
  ∨ (allowed w request m = true
     ∧ (complete request = false ∨ db m !! state_key request = None)
     ∧ status_of r.1 = 400 ∧ db r.2 = db m ∧ ip_requests r.2 = ipr)
  ∨ (∃ srec,
       allowed w request m = true ∧ complete request = true
       ∧ db m !! state_key request = Some srec ∧ srec !! "user_id" = None
       ∧ status_of r.1 = 500 ∧ db r.2 = db m ∧ ip_requests r.2 = ipr)
  ∨ (∃ srec id,
       allowed w request m = true ∧ complete request = true
       ∧ db m !! state_key request = Some srec ∧ srec !! "user_id" = Some id).
Proof.
  intros r ipr. subst r ipr.
  destruct (allowed w request m) eqn:Ha;
    [|left; by rewrite callback_rate_limited].
  right. destruct (complete request) eqn:Hc;
    [|left; rewrite callback_incomplete by done; auto 10].
  destruct (db m !! state_key request) as [srec|] eqn:Hs;
    [|left; rewrite callback_unknown_state by done; auto 10].
  right. destruct (srec !! "user_id") as [id|] eqn:Hid.
  - right. by exists srec, id.
  - left. exists srec. erewrite callback_malformed_state by done. auto 10.
Qed.

Lemma callback_ip_requests w request m :
  ip_requests (oauth_callback items_order w request m).2
  = (RateLimit.record_ip (clock w) (client_host request) (ip_requests m)).2.
Proof.
  destruct (callback_prefix_cases w request m)
    as [(_ & _ & _ & ?)|[(_ & _ & _ & _ & ?)|[(? & _ & _ & _ & _ & _ & _ & ?)
       |(srec & id & Ha & Hc & Hs & Hid)]]]; try done.
  destruct (callback_resolved_cases items_order items_order_perm
              w request m srec id Ha Hc Hs Hid)
    as [[_ ->]|(email & _ & [[_ ->]|(k & ks & _ & _ & ->)])]; done.
Qed.

(** Every request is recorded by the rate limiter, whatever the handler
    answers: the window of its address ends with its clock reading, and the
    windows of the other addresses are as they were. *)
Theorem callback_records_call w request m :
  let r := oauth_callback items_order w request m in
  ip_requests r.2
  = (RateLimit.record_ip (clock w) (client_host request) (ip_requests m)).2
  ∧ last (RateLimit.window (client_host request) (ip_requests r.2)) = Some (clock w)
  ∧ ∀ ip, client_host request ≠ ip →
          RateLimit.window ip (ip_requests r.2) = RateLimit.window ip (ip_requests m).
Proof.
  intros r. subst r. rewrite callback_ip_requests. split; [done|]. split.
  - rewrite RateLimitFacts.record_ip_window. apply last_snoc.
  - intros ip Hne. by apply RateLimitFacts.record_ip_other.
Qed.

(** The status of the answer, by the request, the store and the outside:
    429 when the rate limiter rejects; 400 when a parameter is missing or the
    state token is not in the store; 500 when the state record has no
    [user_id] or the identity exchange fails; the redirect (307) when the
    exchange succeeds. No request gets any other status. *)
Theorem status_table w request m :
  let status := status_of (oauth_callback items_order w request m).1 in
  (status = 429 ↔ allowed w request m = false)
  ∧ (status = 400 ↔
     allowed w request m = true
     ∧ (complete request = false ∨ db m !! state_key request = None))
  ∧ (status = 500 ↔
     allowed w request m = true ∧ complete request = true
     ∧ ∃ srec, db m !! state_key request = Some srec
               ∧ (srec !! "user_id" = None ∨ ExchangeFails w))
  ∧ (status = 307 ↔
     allowed w request m = true ∧ complete request = true
     ∧ ∃ srec id email, db m !! state_key request = Some srec
                        ∧ srec !! "user_id" = Some id ∧ ExchangeSucceeds w email)
  ∧ (status = 429 ∨ status = 400 ∨ status = 500 ∨ status = 307).
Proof.
  intros status.
  set (P429 := allowed w request m = false).
  set (P400 := allowed w request m = true
               ∧ (complete request = false ∨ db m !! state_key request = None)).
  set (P500 := allowed w request m = true ∧ complete request = true
               ∧ ∃ srec, db m !! state_key request = Some srec
                         ∧ (srec !! "user_id" = None ∨ ExchangeFails w)).
  set (P307 := allowed w request m = true ∧ complete request = true
               ∧ ∃ srec id email, db m !! state_key request = Some srec
                                  ∧ srec !! "user_id" = Some id
                                  ∧ ExchangeSucceeds w email).
  assert (P429 → status = 429) as H429.
  { intros Ha. subst status. by rewrite callback_rate_limited. }
  assert (P400 → status = 400) as H400.
  { intros [Ha Hbad]. subst status. destruct (complete request) eqn:Hc.
    - destruct Hbad as [?|Hs]; [done|]. by rewrite callback_unknown_state.
    - by rewrite callback_incomplete. }
  assert (P500 → status = 500) as H500.
  { intros (Ha & Hc & srec & Hs & Hbad). subst status.
    destruct (srec !! "user_id") as [id|] eqn:Hid.
    - destruct Hbad as [?|Hf]; [done|]. by erewrite callback_exchange_failed.
    - by erewrite callback_malformed_state. }
  assert (P307 → status = 307) as H307.
  { intros (Ha & Hc & srec & id & email & Hs & Hid & He). subst status.
    destruct (linked_run items_order items_order_perm
                w request m srec id email Ha Hc Hs Hid He) as [-> _]. done. }
  assert (P429 ∨ P400 ∨ P500 ∨ P307) as Hall.
  { unfold P429, P400, P500, P307.
    destruct (allowed w request m); [|by left].
    destruct (complete request); [|right; left; auto].
    destruct (db m !! state_key request) as [srec|]; [|right; left; auto].
    destruct (srec !! "user_id") as [id|] eqn:Hid;
      [|right; right; left; eauto 10].
    destruct (exchange_dichotomy w) as [Hf|[email He]].
    - right; right; left. eauto 10.
    - right; right; right. eauto 10. }
  split; [|split; [|split; [|split]]].
  - split; [|done]. intros Hst.
    destruct Hall as [?|[H|[H|H]]]; [done|..];
      [apply H400 in H|apply H500 in H|apply H307 in H]; congruence.
  - split; [|done]. intros Hst.
    destruct Hall as [H|[?|[H|H]]]; [|done|..];
      [apply H429 in H|apply H500 in H|apply H307 in H]; congruence.
  - split; [|done]. intros Hst.
    destruct Hall as [H|[H|[?|H]]]; [| |done|];
      [apply H429 in H|apply H400 in H|apply H307 in H]; congruence.
  - split; [|done]. intros Hst.
    destruct Hall as [H|[H|[H|?]]]; [| | |done];
      [apply H429 in H|apply H400 in H|apply H500 in H]; congruence.
  - destruct Hall as [H|[H|[H|H]]]; auto.
Qed.

(** *** What a run leaves alone *)

(** An entry of the store that is not the state entry of the request, not
    a pool entry and not the account of the identity of the state is the same
    after the run: the accounts of the other identities, the other pending
    states and the entries of other components are not touched. *)
Theorem other_entries_untouched w request m k :
  k ≠ state_key request →
  startswith k "key:" = false →
  (∀ srec id, db m !! state_key request = Some srec →
              srec !! "user_id" = Some id → k ≠ user_key id) →
  db (oauth_callback items_order w request m).2 !! k = db m !! k.
Proof.
  intros Hsk Hpool Huk.
  destruct (callback_cases items_order items_order_perm w request m)
    as [->|(srec & id & Hs & Hid & Hdb)]; [done|].
  specialize (Huk srec id Hs Hid).
  destruct Hdb as [->|(email & He & [->|(k' & ks & Hk' & Hks & ->)])];
    unfold linked_db.
  - by rewrite lookup_delete_ne, resolve_lookup_other.
  - by rewrite lookup_insert_ne, lookup_delete_ne, resolve_lookup_other.
  - destruct (first_pool_key_Some items_order items_order_perm _ _ Hk') as [Hpk _].
    assert (k ≠ k') by congruence.
    by rewrite lookup_insert_ne, lookup_delete_ne, lookup_insert_ne,
      lookup_delete_ne, resolve_lookup_other.
Qed.

(** The only entry that a run creates or changes is the account of the
    identity of the state: every other entry of the store after the run was
    there before, with the same value. *)
Theorem only_account_written w request m k v :
  db (oauth_callback items_order w request m).2 !! k = Some v →
  db m !! k = Some v
  ∨ ∃ srec id, db m !! state_key request = Some srec
               ∧ srec !! "user_id" = Some id ∧ k = user_key id.
Proof.
  intros Hv.
  destruct (callback_cases items_order items_order_perm w request m)
    as [Hdb|(srec & id & Hs & Hid & Hdb)]; [left; by rewrite <- Hdb|].
  destruct (decide (k = user_key id)) as [->|Hne]; [right; by exists srec, id|].
  left. revert Hv.
  destruct Hdb as [->|(email & He & [->|(k' & ks & Hk' & Hks & ->)])];
    unfold linked_db;
    rewrite ?lookup_insert_ne by done;
    repeat (rewrite lookup_delete_Some; intros [_ Hv]; revert Hv);
    rewrite ?lookup_insert_ne by done;
    repeat (rewrite lookup_delete_Some; intros [_ Hv]; revert Hv);
    by rewrite resolve_lookup_other.
Qed.

Lemma callback_pool_subseteq w request m :
  pool (db (oauth_callback items_order w request m).2) ⊆ pool (db m).
Proof.
  destruct (callback_cases items_order items_order_perm w request m)
    as [->|(srec & id & Hs & Hid & [->|(email & He & [->|(k' & ks & Hk' & Hks & ->)])])];
    rewrite ?pool_insert_user, ?pool_delete_state, ?pool_resolve, ?pool_delete,
      ?pool_linked; try done.
  apply delete_subseteq.
Qed.

(** The handler never puts an entry in the pool and never changes one:
    after any sequence of requests, every pool entry was in the pool before,
    with the same value. *)
Theorem pool_only_shrinks reqs m :
  pool (db (serve items_order reqs m).2) ⊆ pool (db m).
Proof.
  revert m. induction reqs as [|[w request] reqs IH]; intros m; [done|].
  rewrite serve_cons. cbn [snd]. etrans; [apply IH|]. apply callback_pool_subseteq.
Qed.

(** A failed identity exchange costs the state token, and no key: the
    state entry is deleted, the pool is as it was, and no event of a dispense
    happens. *)
Theorem failed_exchange_keeps_pool w request m srec id :
  allowed w request m = true →
  complete request = true →
  db m !! state_key request = Some srec →
  srec !! "user_id" = Some id →
  ExchangeFails w →
  let r := oauth_callback items_order w request m in
  db r.2 !! state_key request = None
  ∧ pool (db r.2) = pool (db m)
  ∧ List.filter is_dispense (emitted m r.2) = [].
Proof.
  intros Ha Hc Hs Hid Hf r. subst r.
  rewrite (callback_exchange_failed items_order _ _ _ _ _ Ha Hc Hs Hid Hf).
  cbn [snd db]. rewrite emitted_app.
  split; [apply lookup_delete_eq|]. split.
  - by rewrite pool_delete_state, pool_resolve.
  - rewrite !List.filter_app. unfold prelude, resolution, exchange_calls.
    cbn [List.filter is_dispense]. rewrite state_key_not_pool.
    destruct (db m !! user_key id); destruct (token_resp w) as [|st [tok|]];
      simpl; try done; by destruct (bool_decide _).
Qed.

(** *** The delivery and the choice of the key *)

Lemma delivery_raises_notice w id key_str :
  (DeliveryRaises w →
   List.filter is_delivery_failure (delivery w id key_str)
   = [Notify (DmDeliveryFailed id key_str)])
  ∧ (¬ DeliveryRaises w →
     List.filter is_delivery_failure (delivery w id key_str) = []).
Proof.
  rewrite delivery_failure_notice. unfold error_status.
  destruct (dm_resp w) as [|st [cid|]] eqn:Hdm.
  - split; [done|]. intros Hno. destruct Hno. by apply channel_no_response.
  - destruct (decide (400 ≤ st < 600)) as [Hst|Hst].
    + rewrite bool_decide_eq_true_2 by done. split; [done|].
      intros Hno. destruct Hno. by eapply channel_error_status.
    + rewrite bool_decide_eq_false_2 by done.
      destruct (message_resp w) as [|st' b] eqn:Hmsg.
      * split; [done|]. intros Hno. destruct Hno. by apply message_no_response.
      * split; [|done].
        intros [H|? ? H Hbad|? H|H]; try congruence.
        rewrite Hdm in H. injection H as <- _. done.
  - split; [done|]. intros Hno. destruct Hno. by eapply channel_unreadable.
Qed.

(** When a key is dispensed, the notice of a failed delivery is sent, once,
    exactly when a call of the delivery raises: the channel request gets no
    response, an error status or no [id], or the message request gets no
    response. With or without it, the pool entry is gone, the key string is
    on the account, the last event is the notice of the dispense, and the
    answer is the redirect. *)
Theorem delivery_failure_reported w request m srec id email :
  allowed w request m = true →
  complete request = true →
  db m !! state_key request = Some srec →
  srec !! "user_id" = Some id →
  ExchangeSucceeds w email →
  pool (db m) ≠ ∅ →
  let r := oauth_callback items_order w request m in
  r.1 = Return (RedirectResponse "https://skyspoofer.com")
  ∧ ∃ k v key_str,
      pool (db m) !! k = Some v
      ∧ split "key:" k !! 1%nat = Some key_str
      ∧ db r.2 !! k = None
      ∧ field (db r.2) (user_key id) "dispensed_key" = Some (Str key_str)
      ∧ last (emitted m r.2) = Some (Notify (KeyDispensed id key_str))
      ∧ (DeliveryRaises w →
         List.filter is_delivery_failure (emitted m r.2)
         = [Notify (DmDeliveryFailed id key_str)])
      ∧ (¬ DeliveryRaises w →
         List.filter is_delivery_failure (emitted m r.2) = []).
Proof.
  intros Ha Hc Hs Hid He Hpool r. subst r.
  destruct (callback_resolved_cases items_order items_order_perm
              w request m srec id Ha Hc Hs Hid)
    as [[Hf _]|(email' & He' & Hcases)];
    [by destruct (exchange_exclusive w email)|].
  cbn zeta in Hcases. destruct Hcases as [[Hnone _]|(k & ks & Hk & Hks & ->)].
  { exfalso. apply Hpool.
    rewrite <- (pool_linked request (db m) id (now_isoformat w) email').
    by apply (pool_empty_first items_order items_order_perm). }
  destruct (first_pool_key_Some items_order items_order_perm _ _ Hk) as [Hpk [v Hv]].
  cbn [fst snd db]. split; [done|]. exists k, v, ks.
  assert (k ≠ user_key id) by (by apply pool_key_ne_user).
  split.
  { rewrite <- (pool_linked request (db m) id (now_isoformat w) email').
    by rewrite pool_lookup_key. }
  split; [done|]. split.
  { rewrite lookup_insert_ne by done. apply lookup_delete_eq. }
  split.
  { unfold field. rewrite lookup_insert_eq. simpl. unfold annotate.
    rewrite lookup_insert_ne by done. by rewrite lookup_insert_eq. }
  rewrite <- !app_assoc, emitted_app. split.
  { by rewrite !app_assoc, last_snoc. }
  assert (∀ l,
    List.filter is_delivery_failure
      (prelude request (db m) id (now_isoformat w)
       ++ exchange_calls w (query_code request)
       ++ [DbGet (user_key id);
           DbSet (user_key id)
             (<["email" := email']> (account (db m) id (now_isoformat w)));
           Notify (DiscordLinked id email'); DbItems]
       ++ [DbDel k; DbGet (user_key id);
           DbSet (user_key id)
             (annotate (<["email" := email']> (account (db m) id (now_isoformat w)))
                ks (now_isoformat w))]
       ++ delivery w id ks ++ l)
    = List.filter is_delivery_failure (delivery w id ks)
      ++ List.filter is_delivery_failure l) as Hfilter.
  { intros l. rewrite !List.filter_app.
    unfold prelude, resolution, exchange_calls.
    destruct (db m !! user_key id); destruct (token_resp w) as [|st [tok|]];
      simpl; try done; by destruct (bool_decide _). }
  rewrite Hfilter. simpl. rewrite app_nil_r.
  apply delivery_raises_notice.
Qed.

Lemma first_pool_key_app pre k v post :
  forallb (λ kv : string * Rec, negb (startswith kv.1 "key:")) pre = true →
  startswith k "key:" = true →
  first_pool_key (pre ++ (k, v) :: post) = Some k.
Proof.
  intros Hpre Hk. unfold first_pool_key.
  induction pre as [|[k' v'] pre IH]; simpl in *.
  - by rewrite Hk.
  - apply andb_true_iff in Hpre as [Hk' Hpre]. apply negb_true_iff in Hk'.
    rewrite Hk'. by apply IH.
Qed.

(** The key that is dispensed is the first pool entry of the listing of
    the store, as the store is after the email update: the entries listed
    before it are passed over, and the pool entries listed after it stay. *)
Theorem first_listed_dispensed w request m srec id email pre k v post :
  allowed w request m = true →
  complete request = true →
  db m !! state_key request = Some srec →
  srec !! "user_id" = Some id →
  ExchangeSucceeds w email →
  items_order (linked_db request (db m) id (now_isoformat w) email)
  = pre ++ (k, v) :: post →
  forallb (λ kv, negb (startswith kv.1 "key:")) pre = true →
  startswith k "key:" = true →
  let r := oauth_callback items_order w request m in
  db r.2 !! k = None
  ∧ pool (db r.2) = delete k (pool (db m))
  ∧ ∃ key_str, split "key:" k !! 1%nat = Some key_str
               ∧ field (db r.2) (user_key id) "dispensed_key" = Some (Str key_str).
Proof.
  intros Ha Hc Hs Hid He Hlist Hpre Hk r. subst r.
  destruct (pool_key_split _ Hk) as [ks Hks].
  assert (first_pool_key
            (items_order (linked_db request (db m) id (now_isoformat w) email))
          = Some k) as Hfirst
    by (rewrite Hlist; by apply first_pool_key_app).
  rewrite (callback_dispensed items_order items_order_perm
             w request m srec id email k ks Ha Hc Hs Hid He Hfirst Hks).
  cbn [snd db]. assert (k ≠ user_key id) by (by apply pool_key_ne_user).
  split; [rewrite lookup_insert_ne by done; apply lookup_delete_eq|].
  split; [by rewrite pool_insert_user, pool_delete, pool_linked|].
  exists ks. split; [done|].
  unfold field. rewrite lookup_insert_eq. simpl. unfold annotate.
  rewrite lookup_insert_ne by done. by rewrite lookup_insert_eq.
Qed.

(** *** Sequences of requests *)

(** Across any sequence of requests, an entry that is neither a pool entry
    nor a state stays in the store, and all its fields other than [email],
    [dispensed_key] and [last_dispensed_at] keep their values: no account is
    ever deleted, and its [discord_id] is never changed. *)
Theorem other_fields_kept reqs m k rec f :
  db m !! k = Some rec →
  startswith k "key:" = false →
  startswith k "state:" = false →
  f ≠ "email" → f ≠ "dispensed_key" → f ≠ "last_dispensed_at" →
  ∃ rec', db (serve items_order reqs m).2 !! k = Some rec' ∧ rec' !! f = rec !! f.
Proof.
  intros Hrec Hpool Hstate Hemail Hkey Hlast.
  apply (serve_preserves items_order items_order_perm (λ rec', rec' !! f = rec !! f))
    with (rec := rec); try done.
  intros rec1 rec2 [| |] <-; unfold annotate; by rewrite ?lookup_insert_ne by done.
Qed.

Lemma status_429_allowed w request m :
  bool_decide (status_of (oauth_callback items_order w request m).1 = 429)
  = negb (allowed w request m).
Proof.
  destruct (callback_prefix_cases w request m)
    as [(-> & -> & _)|[(-> & _ & -> & _)|[(srec & -> & _ & _ & _ & -> & _)
       |(srec & id & Ha & Hc & Hs & Hid)]]]; try done.
  rewrite Ha.
  destruct (callback_resolved_cases items_order items_order_perm
              w request m srec id Ha Hc Hs Hid)
    as [[_ ->]|(email & _ & [[_ ->]|(k & ks & _ & _ & ->)])]; done.
Qed.

Lemma serve_limiter ip : ∀ reqs m,
  from_address ip reqs = true →
  (λ r, bool_decide (status_of r = 429)) <$> (serve items_order reqs m).1
  = (RateLimit.checks ip (clocks reqs) (ip_requests m)).1.
Proof.
  induction reqs as [|[w request] reqs IH]; intros m Hfrom; [done|].
  simpl in Hfrom. apply andb_true_iff in Hfrom as [Hip Hfrom].
  apply String.eqb_eq in Hip. simpl in Hip.
  rewrite serve_cons. unfold clocks. rewrite fmap_cons.
  rewrite RateLimitFacts.checks_cons. cbn [fst snd]. rewrite fmap_cons.
  rewrite status_429_allowed. unfold allowed, RateLimit.allowed.
  rewrite negb_involutive, Hip. f_equal.
  rewrite IH by done.
  by rewrite callback_ip_requests, Hip.
Qed.

(** In a burst of requests from one address that fits in one period, from
    an address with no recorded call, the requests from the sixth on are
    answered 429 whatever they carry, and none of the first five is. *)
Theorem burst_rejected ip reqs m k :
  from_address ip reqs = true →
  RateLimit.window ip (ip_requests m) = [] →
  RateLimit.within_period (clocks reqs) = true →
  (k < length reqs)%nat →
  ∃ r, (serve items_order reqs m).1 !! k = Some r
       ∧ (status_of r = 429 ↔ (RateLimit.RATE_LIMIT ≤ k)%nat).
Proof.
  intros Hfrom Hempty Hburst Hk.
  pose proof (serve_limiter ip reqs m Hfrom) as Hflags.
  apply (f_equal (λ l, l !! k)) in Hflags.
  rewrite list_lookup_fmap in Hflags.
  rewrite RateLimitFacts.checks_burst in Hflags;
    [|by rewrite Hempty|unfold clocks; by rewrite length_fmap].
  destruct ((serve items_order reqs m).1 !! k) as [r|]; [|done].
  exists r. split; [done|]. simpl in Hflags. injection Hflags as Hflag.
  rewrite Hempty in Hflag. simpl in Hflag.
  split.
  - intros Hst. rewrite bool_decide_eq_true_2 in Hflag by done.
    symmetry in Hflag. apply bool_decide_eq_true in Hflag.
    unfold RateLimit.RATE_LIMIT in *. lia.
  - intros Hle. destruct (decide (status_of r = 429)) as [|Hne]; [done|].
    rewrite bool_decide_eq_false_2 in Hflag by done.
    symmetry in Hflag. apply bool_decide_eq_false in Hflag.
    unfold RateLimit.RATE_LIMIT in *. lia.
Qed.

End Paths.

(** *** Sample runs *)

Lemma rate_limited_request_witness :
  let r := oauth_callback map_to_list world_ok request1 mem_busy in
  r.1 = Raise (HTTPException 429 "Too many requests")
  ∧ db r.2 !! "state:s1" = Some state1.
Proof.
  assert (allowed world_ok request1 mem_busy = false) as Ha by (vm_compute; reflexivity).
  destruct (rate_limited_request map_to_list world_ok request1 mem_busy Ha)
    as (Hr & Hdb & _).
  split; [exact Hr|]. rewrite Hdb. vm_compute. reflexivity.
Defined.

Lemma missing_parameter_witness :
  (oauth_callback map_to_list world_ok request_no_code mem2).1
  = Raise (HTTPException 400 "Missing code or state").
Proof.
  assert (allowed world_ok request_no_code mem2 = true) as Ha by (vm_compute; reflexivity).
  assert (missing (query_code request_no_code) ∨ missing (query_state request_no_code))
    as Hc by (left; right; reflexivity).
  exact (proj1 (missing_parameter map_to_list world_ok request_no_code mem2 Ha Hc)).
Defined.

Lemma unknown_state_events_witness :
  (oauth_callback map_to_list world_ok request_unknown mem2).1
  = Raise (HTTPException 400 "Invalid state").
Proof.
  assert (allowed world_ok request_unknown mem2 = true) as Ha by (vm_compute; reflexivity).
  assert (complete request_unknown = true) as Hc by (vm_compute; reflexivity).
  assert (db mem2 !! state_key request_unknown = None) as Hs by (vm_compute; reflexivity).
  exact (proj1 (unknown_state_events map_to_list world_ok request_unknown mem2 Ha Hc Hs)).
Defined.

Lemma malformed_state_unhandled_witness :
  let r := oauth_callback map_to_list world_ok request1 mem_malformed in
  status_of r.1 = 500 ∧ db r.2 = db mem_malformed.
Proof.
  assert (allowed world_ok request1 mem_malformed = true) as Ha
    by (vm_compute; reflexivity).
  assert (complete request1 = true) as Hc by (vm_compute; reflexivity).
  assert (db mem_malformed !! state_key request1 = Some ∅) as Hs
    by (vm_compute; reflexivity).
  assert ((∅ : Rec) !! "user_id" = None) as Hid by (vm_compute; reflexivity).
  destruct (malformed_state_unhandled map_to_list world_ok request1 mem_malformed ∅
              Ha Hc Hs Hid) as (_ & H500 & Hdb & _).
  split; [exact H500|exact Hdb].
Defined.

Lemma callback_records_call_witness :
  last (RateLimit.window address
          (ip_requests (oauth_callback map_to_list world_later request1 mem2).2))
  = Some 1000000.
Proof.
  exact (proj1 (proj2 (callback_records_call map_to_list (λ d, reflexivity _)
                         world_later request1 mem2))).
Defined.

Lemma status_table_witness :
  status_of (oauth_callback map_to_list world_ok request1 mem2).1 = 307.
Proof.
  destruct (status_table map_to_list (λ d, reflexivity _) world_ok request1 mem2)
    as (_ & _ & _ & [_ H307] & _).
  apply H307. split; [vm_compute; reflexivity|]. split; [vm_compute; reflexivity|].
  exists state1, (Str "42"), (Str "a@b.c").
  split; [vm_compute; reflexivity|]. split; [vm_compute; reflexivity|].
  exact world_ok_succeeds.
Defined.

Lemma other_entries_untouched_witness :
  db (oauth_callback map_to_list world_ok request1 mem_mixed).2 !! "config"
  = db mem_mixed !! "config".
Proof.
  apply (other_entries_untouched map_to_list (λ d, reflexivity _)
           world_ok request1 mem_mixed "config").
  - vm_compute. discriminate.
  - vm_compute. reflexivity.
  - intros srec id Hs Hid. vm_compute in Hs. injection Hs as <-.
    vm_compute in Hid. injection Hid as <-. vm_compute. discriminate.
Defined.

Lemma only_account_written_witness :
  db mem_mixed !! "config" = Some {["mode" := Str "live"]}
  ∨ ∃ srec id, db mem_mixed !! state_key request1 = Some srec
               ∧ srec !! "user_id" = Some id ∧ "config" = user_key id.
Proof.
  apply (only_account_written map_to_list (λ d, reflexivity _) world_ok request1).
  vm_compute. reflexivity.
Defined.

Lemma pool_only_shrinks_witness :
  pool (db (serve map_to_list [(world_ok, request1); (world_later, request2)] mem2).2)
  ⊆ pool (db mem2).
Proof. exact (pool_only_shrinks map_to_list (λ d, reflexivity _) _ mem2). Defined.

Lemma failed_exchange_keeps_pool_witness :
  let r := oauth_callback map_to_list world_no_email request1 mem2 in
  db r.2 !! state_key request1 = None ∧ pool (db r.2) = pool (db mem2).
Proof.
  assert (allowed world_no_email request1 mem2 = true) as Ha by (vm_compute; reflexivity).
  assert (complete request1 = true) as Hc by (vm_compute; reflexivity).
  assert (db mem2 !! state_key request1 = Some state1) as Hs by (vm_compute; reflexivity).
  assert (state1 !! "user_id" = Some (Str "42")) as Hid by (vm_compute; reflexivity).
  assert (ExchangeFails world_no_email) as Hf
    by (apply (profile_without_email world_no_email 200 None_); reflexivity).
  destruct (failed_exchange_keeps_pool map_to_list world_no_email request1 mem2
              state1 (Str "42") Ha Hc Hs Hid Hf) as (Hgone & Hpool & _).
  split; [exact Hgone|exact Hpool].
Defined.

Lemma delivery_failure_reported_witness :
  let r := oauth_callback map_to_list world_channel_refused request1 mem2 in
  ∃ k v key_str,
    pool (db mem2) !! k = Some v
    ∧ field (db r.2) (user_key (Str "42")) "dispensed_key" = Some (Str key_str)
    ∧ List.filter is_delivery_failure (emitted mem2 r.2)
      = [Notify (DmDeliveryFailed (Str "42") key_str)].
Proof.
  assert (allowed world_channel_refused request1 mem2 = true) as Ha
    by (vm_compute; reflexivity).
  assert (complete request1 = true) as Hc by (vm_compute; reflexivity).
  assert (db mem2 !! state_key request1 = Some state1) as Hs by (vm_compute; reflexivity).
  assert (state1 !! "user_id" = Some (Str "42")) as Hid by (vm_compute; reflexivity).
  assert (ExchangeSucceeds world_channel_refused (Str "a@b.c")) as He.
  { exists 200, "tok", 200. unfold error_status.
    repeat split; try reflexivity; lia. }
  assert (pool (db mem2) ≠ ∅) as Hpool by (vm_compute; discriminate).
  assert (DeliveryRaises world_channel_refused) as Hraise.
  { apply (channel_error_status world_channel_refused 403 None); [reflexivity|].
    unfold error_status. lia. }
  destruct (delivery_failure_reported map_to_list (λ d, reflexivity _)
              world_channel_refused request1 mem2 state1 (Str "42") (Str "a@b.c")
              Ha Hc Hs Hid He Hpool)
    as (_ & k & v & ks & Hin & _ & _ & Hkey & _ & Hnotice & _).
  exists k, v, ks. split; [exact Hin|]. split; [exact Hkey|exact (Hnotice Hraise)].
Defined.

Lemma first_listed_dispensed_witness :
  let r := oauth_callback map_to_list world_ok request1 mem2 in
  db r.2 !! "key:AAA" = None ∧ pool (db r.2) = delete "key:AAA" (pool (db mem2)).
Proof.
  assert (allowed world_ok request1 mem2 = true) as Ha by (vm_compute; reflexivity).
  assert (complete request1 = true) as Hc by (vm_compute; reflexivity).
  assert (db mem2 !! state_key request1 = Some state1) as Hs by (vm_compute; reflexivity).
  assert (state1 !! "user_id" = Some (Str "42")) as Hid by (vm_compute; reflexivity).
  assert (map_to_list (linked_db request1 (db mem2) (Str "42")
                         (now_isoformat world_ok) (Str "a@b.c"))
          = [] ++ ("key:AAA", ∅)
               :: tail (map_to_list (linked_db request1 (db mem2) (Str "42")
                                       (now_isoformat world_ok) (Str "a@b.c"))))
    as Hlist by (vm_compute; reflexivity).
  destruct (first_listed_dispensed map_to_list (λ d, reflexivity _)
              world_ok request1 mem2 state1 (Str "42") (Str "a@b.c")
              [] "key:AAA" ∅ _ Ha Hc Hs Hid world_ok_succeeds Hlist)
    as (Hgone & Hpool & _); [reflexivity|reflexivity|].
  split; [exact Hgone|exact Hpool].
Defined.

Lemma other_fields_kept_witness :
  ∃ rec', db (serve map_to_list [(world_ok, request1); (world_later, request2)]
                mem_mixed).2 !! "config" = Some rec'
          ∧ rec' !! "mode" = Some (Str "live").
Proof.
  assert (db mem_mixed !! "config" = Some {["mode" := Str "live"]}) as Hrec
    by (vm_compute; reflexivity).
  destruct (other_fields_kept map_to_list (λ d, reflexivity _)
              [(world_ok, request1); (world_later, request2)] mem_mixed
              "config" _ "mode" Hrec)
    as (rec' & Hrec' & Hmode);
    [reflexivity|reflexivity|discriminate|discriminate|discriminate|].
  exists rec'. split; [exact Hrec'|]. rewrite Hmode. vm_compute. reflexivity.
Defined.

Lemma burst_rejected_witness :
  ∃ r, (serve map_to_list (replicate 7 (world_ok, request1)) mem2).1 !! 6%nat = Some r
       ∧ status_of r = 429.
Proof.
  destruct (burst_rejected map_to_list (λ d, reflexivity _) address
              (replicate 7 (world_ok, request1)) mem2 6)
    as (r & Hr & Hst); [reflexivity|reflexivity|reflexivity|simpl; lia|].
  exists r. split; [exact Hr|]. apply Hst. unfold RateLimit.RATE_LIMIT. lia.
Defined.

End HandlerMore.
